(** * job-crawling: a shallow embedding of the crawling pipeline

    The Python sources (config.py, fetcher.py, progress_tracker.py,
    scraper.py, data_saver.py, downloader.py) are embedded as functions
    over explicit state:

    - Python [int] is [Z]; [str] is [string]; [set] of strings is
      [gset string]; a [queue.Queue] is the list of its items, oldest
      first; the raw-page directory is a [gmap] from file name to content.
    - Everything a method does to the outside (HTTP requests, sleeps, log
      records, terminal output, files) is recorded in a [World] value that
      is threaded through the calls.
    - The shared [ProgressTracker] object is threaded explicitly next to
      the state of the object whose method runs.
    - Every [with lock:] block is one atomic step. The methods are
      embedded as one worker runs them. Where workers share a counter
      outside a lock, lines 186-199 of fetcher.py, the statements are
      embedded one by one as well, with a schedule that interleaves any
      number of workers. *)

From Stdlib Require Import ZArith String Ascii List Bool Lia.
From stdpp Require Import base gmap sets list strings pretty.
Import ListNotations.

Open Scope string_scope.
Open Scope list_scope.
Open Scope Z_scope.

(** ** Python values *)

(** The double-quote character, for the literals of the page-count regex. *)
Definition dq : string := String (ascii_of_nat 34) EmptyString.

(** [not html] for a value that is [None] or a [str]. *)
Definition truthy (o : option string) : bool :=
  match o with
  | Some (String _ _) => true
  | _ => false
  end.

(** [str(b)] for a [bool]. *)
Definition str_bool (b : bool) : string := if b then "True" else "False".

(** [f"{n:02d}"]. *)
Definition fmt_02d (n : Z) : string :=
  if (0 <=? n) && (n <? 10) then "0" +:+ pretty n else pretty n.

(** ** config.py *)

Record Config := {
  DATA_FOLDER : string;
  NUM_JOBS : Z;
  HTML_FILE_LIMIT : Z;
  MAX_RETRIES : Z;
  JOB_TITLES : list string;
}.

(** [os.path.join(folder, name)] for a relative [name]. *)
Definition path_join (folder name : string) : string := folder +:+ "/" +:+ name.

(** The dictionary that [Scraper.scrape_job] builds for one listing. *)
Record JobData := {
  id : Z;
  url : string;
  title : string;
  publication_date : string;
  workload : string;
  contract_type : string;
  salary : string;
  languages : string;
  place_of_work : string
}.

(** ** The world outside the objects *)

Inductive level := DEBUG | INFO | WARNING | ERROR.

(** The three places where the program sleeps. *)
Inductive pause :=
| Backoff (secs : Z)      (* fetch_page: time.sleep(2 ** retries) *)
| RateLimit               (* _fetch_pages: time.sleep(random.uniform(0.5, 1.5)) *)
| Poll (secs : Z).        (* complete: time.sleep(1) *)

Record World := {
  requests : list string;                    (* urls handed to requests.get, oldest first *)
  sleeps : list pause;
  log : list (level * string);
  stdout : list string;
  html_folder : gmap string string;          (* DATA_FOLDER/html: file name -> content *)
  zip_file : option (list (string * string)) (* DATA_FOLDER/job_html_files.zip *)
}.

Definition add_request (url : string) (w : World) : World :=
  {| requests := requests w ++ [url]; sleeps := sleeps w; log := log w;
     stdout := stdout w; html_folder := html_folder w; zip_file := zip_file w |}.

Definition add_sleep (s : pause) (w : World) : World :=
  {| requests := requests w; sleeps := sleeps w ++ [s]; log := log w;
     stdout := stdout w; html_folder := html_folder w; zip_file := zip_file w |}.

Definition logging (l : level) (msg : string) (w : World) : World :=
  {| requests := requests w; sleeps := sleeps w; log := log w ++ [(l, msg)];
     stdout := stdout w; html_folder := html_folder w; zip_file := zip_file w |}.

Definition write_stdout (line : string) (w : World) : World :=
  {| requests := requests w; sleeps := sleeps w; log := log w;
     stdout := stdout w ++ [line]; html_folder := html_folder w; zip_file := zip_file w |}.

(** [open(name, "w").write(content)] inside the raw-page directory. *)
Definition write_html (name content : string) (w : World) : World :=
  {| requests := requests w; sleeps := sleeps w; log := log w;
     stdout := stdout w; html_folder := <[name := content]> (html_folder w);
     zip_file := zip_file w |}.

(** [zipfile.ZipFile(output_zip, "w")] closed after writing [entries]. *)
Definition write_zip (entries : list (string * string)) (w : World) : World :=
  {| requests := requests w; sleeps := sleeps w; log := log w;
     stdout := stdout w; html_folder := html_folder w; zip_file := Some entries |}.

(** ** progress_tracker.py *)

Module ProgressTracker.

Record t := {
  total_jobs : Z;
  html_file_limit : Z;
  fetched : Z;
  scraped : Z;
  downloaded : Z;
  fetching_done : bool;
  scraping_done : bool;
  downloading_done : bool
}.

(** [__init__]: the counters start at zero, the flags at [False]. *)
Definition init (total_jobs html_file_limit : Z) : t :=
  {| total_jobs := total_jobs; html_file_limit := html_file_limit;
     fetched := 0; scraped := 0; downloaded := 0;
     fetching_done := false; scraping_done := false; downloading_done := false |}.

Definition set_fetched (v : Z) (p : t) : t :=
  {| total_jobs := total_jobs p; html_file_limit := html_file_limit p;
     fetched := v; scraped := scraped p; downloaded := downloaded p;
     fetching_done := fetching_done p; scraping_done := scraping_done p;
     downloading_done := downloading_done p |}.

Definition set_scraped (v : Z) (p : t) : t :=
  {| total_jobs := total_jobs p; html_file_limit := html_file_limit p;
     fetched := fetched p; scraped := v; downloaded := downloaded p;
     fetching_done := fetching_done p; scraping_done := scraping_done p;
     downloading_done := downloading_done p |}.

Definition set_downloaded (v : Z) (p : t) : t :=
  {| total_jobs := total_jobs p; html_file_limit := html_file_limit p;
     fetched := fetched p; scraped := scraped p; downloaded := v;
     fetching_done := fetching_done p; scraping_done := scraping_done p;
     downloading_done := downloading_done p |}.

Definition set_fetching_done (b : bool) (p : t) : t :=
  {| total_jobs := total_jobs p; html_file_limit := html_file_limit p;
     fetched := fetched p; scraped := scraped p; downloaded := downloaded p;
     fetching_done := b; scraping_done := scraping_done p;
     downloading_done := downloading_done p |}.

Definition set_scraping_done (b : bool) (p : t) : t :=
  {| total_jobs := total_jobs p; html_file_limit := html_file_limit p;
     fetched := fetched p; scraped := scraped p; downloaded := downloaded p;
     fetching_done := fetching_done p; scraping_done := b;
     downloading_done := downloading_done p |}.

Definition set_downloading_done (b : bool) (p : t) : t :=
  {| total_jobs := total_jobs p; html_file_limit := html_file_limit p;
     fetched := fetched p; scraped := scraped p; downloaded := downloaded p;
     fetching_done := fetching_done p; scraping_done := scraping_done p;
     downloading_done := b |}.

Definition update_fetch (p : t) : t :=
  let p1 := if fetched p <? total_jobs p then set_fetched (fetched p + 1) p else p in
  if (fetched p1 =? total_jobs p1) && negb (fetching_done p1)
  then set_fetching_done true p1
  else p1.

Definition update_scrape (p : t) : t :=
  if negb (fetching_done p) then p
  else
    let p1 := if scraped p <? fetched p then set_scraped (scraped p + 1) p else p in
    if (scraped p1 =? total_jobs p1) && negb (scraping_done p1)
    then set_scraping_done true p1
    else p1.

Definition update_download (p : t) : t :=
  if downloaded p <? html_file_limit p
  then set_downloaded (downloaded p + 1) p
  else p.

(** The three update methods, as the calls a worker can make. *)
Inductive call := UpdateFetch | UpdateScrape | UpdateDownload.

Definition apply_call (c : call) (p : t) : t :=
  match c with
  | UpdateFetch => update_fetch p
  | UpdateScrape => update_scrape p
  | UpdateDownload => update_download p
  end.

(** The tracker as it is after each call of a sequence, in order. *)
Fixpoint states_after (calls : list call) (p : t) : list t :=
  match calls with
  | [] => []
  | c :: calls' => apply_call c p :: states_after calls' (apply_call c p)
  end.

(** The ordering of the counters, and that none is negative. *)
Definition counters_ok (p : t) : Prop :=
  0 <= scraped p /\ scraped p <= fetched p /\ fetched p <= total_jobs p /\
  0 <= downloaded p /\ downloaded p <= html_file_limit p.

(** [complete]: [max_retries = 10], [retries = 0], then the polling loop. *)
Definition max_retries : Z := 10.

Definition still_waiting (p : t) : string :=
  "Still waiting: fetch=" +:+ str_bool (fetching_done p) +:+
  ", scrape=" +:+ str_bool (scraping_done p) +:+
  ", download=" +:+ str_bool (downloading_done p).

(** What the polling loop has done after at most [fuel] iterations. *)
Inductive polling :=
| Exited (w : World)         (* the loop condition was found false *)
| StillPolling (w : World).  (* [fuel] iterations done, the loop goes on *)

(** [while not self.downloading_done and retries < max_retries:] with its
    body, a log record and a one-second sleep. The body assigns neither
    [retries] nor [downloading_done]; [complete] runs after the download
    threads were joined, so no other thread sets the flag either. *)
Fixpoint complete_wait (fuel : nat) (retries : Z) (p : t) (w : World) : polling :=
  if negb (downloading_done p) && (retries <? max_retries) then
    match fuel with
    | O => StillPolling w
    | S fuel' =>
        complete_wait fuel' retries p
          (add_sleep (Poll 1) (logging INFO (still_waiting p) w))
    end
  else Exited w.

Definition summary_line (elapsed : Z) (p : t) : string :=
  "[Time: " +:+ fmt_02d elapsed +:+ "] " +:+
  "Fetched: " +:+ pretty (fetched p) +:+ "/" +:+ pretty (total_jobs p) +:+ " | " +:+
  "Scraped: " +:+ pretty (scraped p) +:+ "/" +:+ pretty (total_jobs p) +:+ " | " +:+
  "Downloaded: " +:+ pretty (downloaded p) +:+ "/" +:+ pretty (html_file_limit p).

(** [complete], run for at most [fuel] iterations of its loop; [elapsed]
    is [int(time.time() - self.start_time)] when the summary is written.
    [None]: the loop is still running. *)
Definition complete (fuel : nat) (elapsed : Z) (p : t) (w : World) : option World :=
  match complete_wait fuel 0 p w with
  | StillPolling _ => None
  | Exited w1 =>
      Some (logging INFO "Fetching, Scraping & Downloading Completed."
              (write_stdout (summary_line elapsed p) w1))
  end.

(** The tracker after a sequence of calls. *)
Definition run (calls : list call) (p : t) : t :=
  fold_left (fun p c => apply_call c p) calls p.

Definition is_call (c c' : call) : bool :=
  match c, c' with
  | UpdateFetch, UpdateFetch => true
  | UpdateScrape, UpdateScrape => true
  | UpdateDownload, UpdateDownload => true
  | _, _ => false
  end.

(** How often the call [c] occurs in a sequence. *)
Definition count_call (c : call) (calls : list call) : Z :=
  Z.of_nat (length (List.filter (is_call c) calls)).

(** What a flag that is set says about the counters. *)
Definition flags_ok (p : t) : Prop :=
  (fetching_done p = true -> fetched p = total_jobs p) /\
  (scraping_done p = true -> fetching_done p = true /\ scraped p = total_jobs p).

End ProgressTracker.

(** ** The page-count regex of fetcher.py

    [r'"meta":\s*{\s*"numPages":\s*(\d+)'], over pages of ASCII text. Each
    [\s*] is followed by a character that is no white space and [\d+] ends
    the pattern, so the greedy match below is the only one at a position. *)

Module Re.

(** [\s] on the ASCII range: tab to carriage return, the four
    separators 28..31, and the blank. *)
Definition isspace (c : ascii) : bool :=
  let n := N_of_ascii c in
  (((9 <=? n) && (n <=? 13)) || ((28 <=? n) && (n <=? 32)))%N.

(** [\d] on the ASCII range. *)
Definition isdigit (c : ascii) : bool :=
  let n := N_of_ascii c in
  ((48 <=? n) && (n <=? 57))%N.

Fixpoint skip_spaces (s : string) : string :=
  match s with
  | String c s' => if isspace c then skip_spaces s' else s
  | EmptyString => s
  end.

(** [s] without the literal [lit] at its start, if it starts with it. *)
Fixpoint literal (lit s : string) : option string :=
  match lit, s with
  | EmptyString, _ => Some s
  | String a lit', String b s' => if Ascii.eqb a b then literal lit' s' else None
  | String _ _, EmptyString => None
  end.

(** The longest run of digits at the start of [s], and the rest. *)
Fixpoint digits (s : string) : string * string :=
  match s with
  | String c s' =>
      if isdigit c then let '(d, rest) := digits s' in (String c d, rest)
      else (EmptyString, s)
  | EmptyString => (EmptyString, EmptyString)
  end.

Definition meta_key : string := dq +:+ "meta" +:+ dq +:+ ":".
Definition numPages_key : string := dq +:+ "numPages" +:+ dq +:+ ":".

(** A match of the pattern that starts at the first character of [s]:
    its group, and what follows the match. *)
Definition match_here (s : string) : option (string * string) :=
  match literal meta_key s with
  | None => None
  | Some s1 =>
      match literal "{" (skip_spaces s1) with
      | None => None
      | Some s2 =>
          match literal numPages_key (skip_spaces s2) with
          | None => None
          | Some s3 =>
              match digits (skip_spaces s3) with
              | (EmptyString, _) => None
              | (d, rest) => Some (d, rest)
              end
          end
      end
  end.

(** [re.search(pattern, s).group(1)], [None] when there is no match. *)
Fixpoint search (s : string) : option string :=
  match match_here s with
  | Some (d, _) => Some d
  | None =>
      match s with
      | String _ s' => search s'
      | EmptyString => None
      end
  end.

Fixpoint findall_from (fuel : nat) (s : string) : list string :=
  match fuel with
  | O => []
  | S fuel' =>
      match match_here s with
      | Some (d, rest) => d :: findall_from fuel' rest
      | None =>
          match s with
          | String _ s' => findall_from fuel' s'
          | EmptyString => []
          end
      end
  end.

(** [re.findall(pattern, s)]: the groups of the matches, left to right,
    each search resuming where the previous match ended. Every step
    consumes a character, so the length of [s] bounds the steps. *)
Definition findall (s : string) : list string :=
  findall_from (S (String.length s)) s.

(** [sub in s]. *)
Fixpoint contains (sub s : string) : bool :=
  if String.prefix sub s then true
  else match s with
       | String _ s' => contains sub s'
       | EmptyString => false
       end.

Fixpoint int_from (acc : Z) (s : string) : Z :=
  match s with
  | String c s' => int_from (10 * acc + (Z.of_N (N_of_ascii c) - 48)) s'
  | EmptyString => acc
  end.

(** [sys.int_info.default_max_str_digits]: the longest string of
    decimal digits that [int()] converts. The repository sets no other
    limit. *)
Definition max_str_digits : nat := 4300.

(** [int(d)] for a string of decimal digits: the number, or [None] for
    the [ValueError] raised for more than [max_str_digits] digits. *)
Definition int (d : string) : option Z :=
  if (max_str_digits <? String.length d)%nat then None else Some (int_from 0 d).

(** [str(e)] for that [ValueError]. *)
Definition value_error (d : string) : string :=
  "Exceeds the limit (4300 digits) for integer string conversion: value has " +:+
  pretty (Z.of_nat (String.length d)) +:+
  " digits; use sys.set_int_max_str_digits() to increase the limit".

End Re.

(** ** fetcher.py *)

Module Fetcher.

(** The exception classes of [requests] that the handlers of [fetch_page]
    tell apart; all of them derive from [RequestException]. *)
Inductive RequestException :=
| Timeout
| ConnectionError
| HTTPError
| TooManyRedirects
| OtherRequestException.

(** What one [requests.get] does. *)
Inductive outcome :=
| Response (status : Z) (text : string)
| Raises (e : RequestException).

(** Stands for [str(err)] in the log record. *)
Definition str_exc (e : RequestException) : string :=
  match e with
  | Timeout => "Timeout"
  | ConnectionError => "ConnectionError"
  | HTTPError => "HTTPError"
  | TooManyRedirects => "TooManyRedirects"
  | OtherRequestException => "RequestException"
  end.

(** How a [try] statement inside a function ends: with a [return] of the
    function, or by reaching the statement after it. *)
Inductive completion (A : Type) :=
| Returns (a : A)
| FallsThrough.
Arguments Returns {A} a.
Arguments FallsThrough {A}.

(** How the body of the loop over the pages of one title ends the work
    on that title: by going on to the next title (the loop ran out, or a
    [break]), or by a [return] from [_fetch_pages]. *)
Inductive signal := Next | Return.

(** The fields that the modelled methods read or write. [page_queue] and
    [NUM_PAGES] are filled in by [__init__] and used by no method. *)
Record t := {
  job_queue : list string;
  download_queue : list string;
  seen_urls : gset string;
  fetched_count : Z
}.

(** [Fetcher(job_queue, progress_tracker, download_queue)] as main.py
    builds it, with two empty queues. *)
Definition init : t :=
  {| job_queue := []; download_queue := []; seen_urls := ∅; fetched_count := 0 |}.

Definition put_job (link : string) (f : t) : t :=
  {| job_queue := job_queue f ++ [link]; download_queue := download_queue f;
     seen_urls := seen_urls f; fetched_count := fetched_count f |}.

Definition put_download (link : string) (f : t) : t :=
  {| job_queue := job_queue f; download_queue := download_queue f ++ [link];
     seen_urls := seen_urls f; fetched_count := fetched_count f |}.

Definition set_fetched_count (v : Z) (f : t) : t :=
  {| job_queue := job_queue f; download_queue := download_queue f;
     seen_urls := seen_urls f; fetched_count := v |}.

Definition update_seen_urls (links : list string) (f : t) : t :=
  {| job_queue := job_queue f; download_queue := download_queue f;
     seen_urls := seen_urls f ∪ list_to_set links; fetched_count := fetched_count f |}.

(** [range(lo, hi)]. *)
Definition range (lo hi : Z) : list Z := seqZ lo (hi - lo).

Definition page_url (page : Z) (encoded_job_title : string) : string :=
  "https://www.jobs.ch/en/vacancies/?page=" +:+ pretty page +:+
  "&term=" +:+ encoded_job_title.

(** The address that [get_total_pages] fetches. *)
Definition first_page_url (encoded_job_title : string) : string :=
  "https://www.jobs.ch/en/vacancies/?page=1&term=" +:+ encoded_job_title.

Section Methods.

Variable cfg : Config.

(** The network: what the request for [url] does when it is the
    [n+1]-th request of the run. *)
Variable net : nat -> string -> outcome.

(** [urllib.parse.quote_plus]. *)
Variable quote_plus : string -> string.

(** The [href] values of
    [BeautifulSoup(html, "html.parser").select("a[href^='/en/vacancies/detail/']")]. *)
Variable select_detail_hrefs : string -> list string.

(** [script.string] for each tag of
    [BeautifulSoup(html, "html.parser").find_all("script")], or the
    text of the exception when the parser raises one. *)
Variable find_all_script : string -> string + list (option string).

(** [requests.get(...)] followed by [response.raise_for_status()]:
    the text of the response, or the exception raised. *)
Definition request (url : string) (w : World) : (RequestException + string) * World :=
  let w1 := add_request url w in
  match net (length (requests w)) url with
  | Response status text =>
      if (400 <=? status) && (status <? 600) then (inl HTTPError, w1)
      else (inr text, w1)
  | Raises e => (inl e, w1)
  end.

(** The [try] statement of [fetch_page] with its two handlers. *)
Definition try_request (url : string) (w : World) : completion (option string) * World :=
  match request url w with
  | (inr text, w1) => (Returns (Some text), w1)
  | (inl TooManyRedirects, w1) =>
      (Returns None, logging ERROR ("Too many redirects for " +:+ url) w1)
  | (inl err, w1) =>
      (Returns None,
       logging ERROR ("Request failed: " +:+ str_exc err +:+ " for " +:+ url) w1)
  end.

(** [while retries < MAX_RETRIES:] of [fetch_page]. *)
Fixpoint fetch_page_loop (fuel : nat) (retries : Z) (url : string) (w : World)
  : option string * World :=
  if retries <? MAX_RETRIES cfg then
    match fuel with
    | O => (None, w)
    | S fuel' =>
        match try_request url w with
        | (Returns r, w1) => (r, w1)
        | (FallsThrough, w1) =>
            let retries := retries + 1 in
            fetch_page_loop fuel' retries url (add_sleep (Backoff (2 ^ retries)) w1)
        end
    end
  else (None, w).

(** [retries] goes up by one per iteration, so [MAX_RETRIES] iterations
    are all the loop can make. *)
Definition fetch_page (url : string) (w : World) : option string * World :=
  fetch_page_loop (Z.to_nat (MAX_RETRIES cfg)) 0 url w.

Definition extract_job_links (html_content : string) : list string :=
  map (String.append "https://www.jobs.ch") (select_detail_hrefs html_content).

(** The loop over the script tags in [get_total_pages]. *)
Fixpoint scan_scripts (scripts : list (option string)) : option string :=
  match scripts with
  | [] => None
  | Some (String _ _ as s) :: scripts' =>
      if Re.contains Re.meta_key s then
        match Re.search s with
        | Some d => Some d
        | None => scan_scripts scripts'
        end
      else scan_scripts scripts'
  | _ :: scripts' => scan_scripts scripts'
  end.

Definition get_total_pages (encoded_job_title : string) (w : World) : Z * World :=
  let url := first_page_url encoded_job_title in
  let '(html, w1) := fetch_page url w in
  match html with
  | Some (String _ _ as html) =>
      let failed e :=
        (0, logging ERROR ("Error extracting pages for '" +:+ encoded_job_title +:+
                           "': " +:+ e) w1) in
      match Re.findall html with
      | m :: _ =>
          match Re.int m with
          | Some total_pages => (total_pages, w1)
          | None => failed (Re.value_error m)
          end
      | [] =>
          match find_all_script html with
          | inr scripts =>
              match scan_scripts scripts with
              | Some d =>
                  match Re.int d with
                  | Some total_pages =>
                      (total_pages,
                       logging INFO ("Extracted " +:+ pretty total_pages +:+ " pages for '" +:+
                                     encoded_job_title +:+ "' from script tag") w1)
                  | None => failed (Re.value_error d)
                  end
              | None => (1, w1)
              end
          | inl e => failed e
          end
      end
  | _ =>
      (0, logging ERROR ("Failed to fetch first page for '" +:+ encoded_job_title +:+ "'") w1)
  end.

(** Lines 192-196: what is done with a link once the check of the
    job target has let it through. *)
Definition accept_link (link : string) (f : t) (p : ProgressTracker.t)
  : t * ProgressTracker.t :=
  let f1 := put_job link f in
  let f2 := if fetched_count f1 <? HTML_FILE_LIMIT cfg then put_download link f1 else f1 in
  (set_fetched_count (fetched_count f2 + 1) f2, ProgressTracker.update_fetch p).

(** [for link in new_links:]; the boolean tells whether the loop left
    [_fetch_pages] by [return]. *)
Fixpoint enqueue_links (new_links : list string) (f : t) (p : ProgressTracker.t)
  : bool * t * ProgressTracker.t :=
  match new_links with
  | [] => (false, f, p)
  | link :: new_links' =>
      if NUM_JOBS cfg <=? fetched_count f then (true, f, p)
      else let '(f1, p1) := accept_link link f p in enqueue_links new_links' f1 p1
  end.

(** [for current_page in range(1, total_pages + 1):]. *)
Fixpoint fetch_pages_of (pages : list Z) (job_title encoded_job_title : string)
    (f : t) (p : ProgressTracker.t) (w : World)
  : signal * t * ProgressTracker.t * World :=
  match pages with
  | [] => (Next, f, p, w)
  | current_page :: pages' =>
      if NUM_JOBS cfg <=? fetched_count f then (Return, f, p, w)
      else
        let '(html_content, w1) := fetch_page (page_url current_page encoded_job_title) w in
        match html_content with
        | Some (String _ _ as html_content) =>
            let job_links := extract_job_links html_content in
            let w2 :=
              logging DEBUG ("Extracted " +:+ pretty (Z.of_nat (length job_links)) +:+
                             " job links from page " +:+ pretty current_page +:+
                             " for '" +:+ job_title +:+ "'") w1 in
            match job_links with
            | [] =>
                (Next, f, p,
                 logging WARNING ("No jobs found on page " +:+ pretty current_page +:+
                                  " for '" +:+ job_title +:+ "'. Moving to next keyword.") w2)
            | _ :: _ =>
                let new_links := filter (fun link => link ∉ seen_urls f) job_links in
                match new_links with
                | [] =>
                    fetch_pages_of pages' job_title encoded_job_title f p
                      (add_sleep RateLimit w2)
                | _ :: _ =>
                    match enqueue_links new_links f p with
                    | (true, f1, p1) => (Return, f1, p1, w2)
                    | (false, f1, p1) =>
                        fetch_pages_of pages' job_title encoded_job_title
                          (update_seen_urls new_links f1) p1 (add_sleep RateLimit w2)
                    end
                end
            end
        | _ =>
            (Next, f, p,
             logging ERROR ("Failed to fetch job listing page " +:+ pretty current_page +:+
                            " for '" +:+ job_title +:+ "'") w1)
        end
  end.

(** The body of [for job_title in JOB_TITLES:]. *)
Definition fetch_title (job_title : string) (f : t) (p : ProgressTracker.t) (w : World)
  : signal * t * ProgressTracker.t * World :=
  let encoded_job_title := quote_plus job_title in
  let '(total_pages, w1) := get_total_pages encoded_job_title w in
  if total_pages =? 0 then
    (Next, f, p, logging WARNING ("No jobs found for '" +:+ job_title +:+ "', skipping...") w1)
  else
    fetch_pages_of (range 1 (total_pages + 1)) job_title encoded_job_title f p
      (logging INFO ("Fetching " +:+ pretty total_pages +:+ " pages for '" +:+
                     job_title +:+ "'") w1).

Fixpoint fetch_titles (titles : list string) (f : t) (p : ProgressTracker.t) (w : World)
  : t * ProgressTracker.t * World :=
  match titles with
  | [] => (f, p, w)
  | job_title :: titles' =>
      match fetch_title job_title f p w with
      | (Return, f1, p1, w1) => (f1, p1, w1)
      | (Next, f1, p1, w1) => fetch_titles titles' f1 p1 w1
      end
  end.

Definition _fetch_pages (f : t) (p : ProgressTracker.t) (w : World)
  : t * ProgressTracker.t * World :=
  fetch_titles (JOB_TITLES cfg) f p w.

(** The states of the fetcher that come about when the statements of
    lines 188-199 are run for one link after the other, no worker
    stepping in between the statements of another: the state main.py
    builds, and what accepting a link below the job target or recording
    links as seen makes of such a state. *)
Inductive reachable_in_turn : t -> Prop :=
| in_turn_init : reachable_in_turn init
| in_turn_accept link f p :
    reachable_in_turn f -> fetched_count f < NUM_JOBS cfg ->
    reachable_in_turn (fst (accept_link link f p))
| in_turn_seen links f :
    reachable_in_turn f -> reachable_in_turn (update_seen_urls links f).

(** *** Lines 186-199 run by several workers

    main.py starts threads on [fetch_jobs], each of which starts
    [FETCHER_THREADS] threads on [_fetch_pages] and then calls
    [_fetch_pages] itself, all on one [Fetcher]. Of lines 188-196 only
    the test of the job target is made under [count_lock]; the two
    [put]s, the test of the cap and the increment run outside a lock, and
    the increment is a read of [fetched_count] followed by a store. The
    rest of [_fetch_pages] writes none of the fields of [t]. *)

(** Where a worker stands. *)
Inductive point :=
| Away            (* not in the loop over the new links of a page *)
| AtTest          (* 188-190: the test of the job target, under count_lock *)
| AtPutJob        (* 192: job_queue.put(link) *)
| AtCapTest       (* 193: if self.fetched_count < HTML_FILE_LIMIT *)
| AtPutDownload   (* 194: download_queue.put(link) *)
| AtRead          (* 195: the read of self.fetched_count *)
| AtWrite (v : Z) (* 195: the store of v + 1, v being the value read *)
| AtUpdateFetch   (* 196: self.progress.update_fetch() *)
| AtSeen.         (* 198-199: self.seen_urls.update(new_links) *)

(** A worker in the loop: its [new_links], the links still to handle
    (the first is the one in hand), and where it stands. *)
Record worker := {
  new_links : list string;
  todo : list string;
  at_point : point
}.

Definition away : worker := {| new_links := []; todo := []; at_point := Away |}.

(** A worker that has reached [for link in new_links:]. *)
Definition entering (links : list string) : worker :=
  {| new_links := links; todo := links; at_point := AtTest |}.

(** The next statement of a worker, on the fetcher and the tracker as
    the other workers left them. *)
Definition step_worker (wk : worker) (f : t) (p : ProgressTracker.t)
  : worker * t * ProgressTracker.t :=
  let now_at pt := {| new_links := new_links wk; todo := todo wk; at_point := pt |} in
  match at_point wk, todo wk with
  | AtTest, _ :: _ =>
      if NUM_JOBS cfg <=? fetched_count f then (away, f, p) else (now_at AtPutJob, f, p)
  | AtPutJob, link :: _ => (now_at AtCapTest, put_job link f, p)
  | AtCapTest, _ :: _ =>
      if fetched_count f <? HTML_FILE_LIMIT cfg then (now_at AtPutDownload, f, p)
      else (now_at AtRead, f, p)
  | AtPutDownload, link :: _ => (now_at AtRead, put_download link f, p)
  | AtRead, _ :: _ => (now_at (AtWrite (fetched_count f)), f, p)
  | AtWrite v, _ :: _ => (now_at AtUpdateFetch, set_fetched_count (v + 1) f, p)
  | AtUpdateFetch, _ :: rest =>
      ({| new_links := new_links wk; todo := rest;
          at_point := match rest with [] => AtSeen | _ :: _ => AtTest end |},
       f, ProgressTracker.update_fetch p)
  | AtSeen, _ => (away, update_seen_urls (new_links wk) f, p)
  | _, _ => (wk, f, p)
  end.

(** What the scheduler lets happen next: worker [i] comes to line 186
    with a non-empty [new_links], or worker [i] runs its next statement. *)
Inductive event :=
| Enter (i : nat) (links : list string)
| Step (i : nat).

(** The workers, the fetcher they share and the tracker. *)
Definition system : Type := list worker * t * ProgressTracker.t.

Definition perform (e : event) (s : system) : system :=
  let '(ws, f, p) := s in
  match e with
  | Enter i links =>
      match ws !! i, links with
      | Some wk, _ :: _ =>
          match at_point wk with
          | Away => (<[i := entering links]> ws, f, p)
          | _ => s
          end
      | _, _ => s
      end
  | Step i =>
      match ws !! i with
      | Some wk => let '(wk', f', p') := step_worker wk f p in (<[i := wk']> ws, f', p')
      | None => s
      end
  end.

(** The events of a schedule, in order. *)
Definition interleave (es : list event) (s : system) : system :=
  fold_left (fun s e => perform e s) es s.

(** [n] workers on the fetcher that main.py builds. *)
Definition start (n : nat) (p : ProgressTracker.t) : system := (replicate n away, init, p).

(** The states of the fetcher that link discovery reaches, whatever the
    number of workers, the links they find and the order in which their
    statements are run. *)
Definition reachable (f : t) : Prop :=
  exists n p es ws p', interleave es (start n p) = (ws, f, p').

(** Two workers, each with a link in hand: both make the test of the
    job target, both put their link on the scrape queue, both make the
    test of the cap, and only then does either go on to the increment. *)
Definition racing : list event :=
  [Step 0; Step 1; Step 0; Step 1; Step 0; Step 1; Step 0; Step 1;
   Step 0; Step 0; Step 0; Step 1; Step 1; Step 1]%nat.

(** A worker that has put its link on the scrape queue and has not yet
    stored the incremented count. *)
Definition increment_pending (wk : worker) : bool :=
  match at_point wk with
  | AtCapTest | AtPutDownload | AtRead | AtWrite _ => true
  | _ => false
  end.

(** A worker that has put its link on the scrape queue and has the test
    of the cap, or the put that follows it, before it. *)
Definition cap_pending (wk : worker) : bool :=
  match at_point wk with
  | AtCapTest | AtPutDownload => true
  | _ => false
  end.

Definition count (c : worker -> bool) (ws : list worker) : Z :=
  Z.of_nat (length (List.filter c ws)).

(** What a worker holds is in line with the queues: a value read for the
    increment is within [slack], and the link in hand between the two
    [put]s is on the scrape queue [jq]. *)
Definition worker_sound (slack : Z) (jq : list string) (wk : worker) : Prop :=
  match at_point wk with
  | AtWrite v => 0 <= v <= slack
  | AtCapTest | AtPutDownload => exists link rest, todo wk = link :: rest /\ link ∈ jq
  | _ => True
  end.

(** What holds of the workers and the fetcher in every interleaving. *)
Definition sound (s : system) : Prop :=
  let '(ws, f, _) := s in
  0 <= fetched_count f /\
  fetched_count f + count increment_pending ws <= Z.of_nat (length (job_queue f)) /\
  Z.of_nat (length (download_queue f)) + count cap_pending ws <=
    Z.of_nat (length (job_queue f)) /\
  (forall link, link ∈ download_queue f -> link ∈ job_queue f) /\
  Forall (worker_sound (Z.of_nat (length (job_queue f)) - count increment_pending ws)
            (job_queue f)) ws /\
  (HTML_FILE_LIMIT cfg <= 0 ->
   download_queue f = [] /\ Forall (fun wk => at_point wk <> AtPutDownload) ws).

(** What [fetch_jobs] has done after its threads and at most [fuel]
    further runs of [_fetch_pages]. *)
Inductive refetching :=
| Reached (f : t) (p : ProgressTracker.t) (w : World)       (* the loop condition was found false *)
| StillFetching (f : t) (p : ProgressTracker.t) (w : World). (* [fuel] runs done, the loop goes on *)

(** [while self.fetched_count < NUM_JOBS: self._fetch_pages()]. *)
Fixpoint fetch_more (fuel : nat) (f : t) (p : ProgressTracker.t) (w : World) : refetching :=
  if fetched_count f <? NUM_JOBS cfg then
    match fuel with
    | O => StillFetching f p w
    | S fuel' =>
        let '(f1, p1, w1) := _fetch_pages f p w in
        fetch_more fuel' f1 p1 w1
    end
  else Reached f p w.

(** The threads that [fetch_jobs] starts and joins, each running
    [_fetch_pages], in the schedule that lets each of them run to its
    end before the next. How their link loops interleave is the subject
    of [interleave] above. *)
Fixpoint fetch_threads (threads : nat) (f : t) (p : ProgressTracker.t) (w : World)
  : t * ProgressTracker.t * World :=
  match threads with
  | O => (f, p, w)
  | S threads' =>
      let '(f1, p1, w1) := _fetch_pages f p w in
      fetch_threads threads' f1 p1 w1
  end.

(** [fetch_jobs] with [FETCHER_THREADS = threads]. The event
    [fetching_complete] that it sets at the end is waited on nowhere. *)
Definition fetch_jobs (threads fuel : nat) (f : t) (p : ProgressTracker.t) (w : World)
  : refetching :=
  let '(f1, p1, w1) := fetch_threads threads f p w in
  match fetch_more fuel f1 p1 w1 with
  | Reached f2 p2 w2 => Reached f2 p2 (logging INFO "Fetching completed." w2)
  | StillFetching f2 p2 w2 => StillFetching f2 p2 w2
  end.

End Methods.

End Fetcher.

(** ** scraper.py *)

Module Scraper.

Record t := {
  seen_jobs : gset string;
  job_id : Z;
  scraped_jobs : list JobData
}.

Definition init : t := {| seen_jobs := ∅; job_id := 1; scraped_jobs := [] |}.

(** [x or "N/A"] for a string [x]. *)
Definition or_NA (x : string) : string :=
  match x with
  | EmptyString => "N/A"
  | String _ _ => x
  end.

Fixpoint rev_onto (s acc : string) : string :=
  match s with
  | EmptyString => acc
  | String c s' => rev_onto s' (String c acc)
  end.

(** [s.strip()], on ASCII text. *)
Definition strip (s : string) : string :=
  let s1 := Re.skip_spaces s in
  rev_onto (Re.skip_spaces (rev_onto s1 EmptyString)) EmptyString.

(** [s.split(sep)[0]]: [s] up to the first occurrence of [sep]. *)
Fixpoint split_head (sep s : string) : string :=
  if String.prefix sep s then EmptyString
  else match s with
       | EmptyString => EmptyString
       | String c s' => String c (split_head sep s')
       end.

(** What the methods ask of [BeautifulSoup(job_html, "html.parser")]:
    the [.text] of the tag found, [None] when there is no such tag. *)
Record Soup := {
  find_title : option string;          (* soup.find("title") *)
  find_h1 : option string;             (* soup.find("h1") *)
  find_div_job_title : option string;  (* soup.find("div", class_="job-title") *)
  find_label_next_span : string -> option string
    (* tag.find_next("span") for the span whose stripped text is the
       label; None when either tag is missing *)
}.

Definition extract_title (soup : Soup) : string :=
  let job_title := "N/A" in
  let job_title :=
    match find_title soup with
    | Some text => strip (split_head " - Job Offer" text)
    | None => job_title
    end in
  let job_title :=
    if String.eqb job_title "N/A" then
      match find_h1 soup with
      | Some text => strip text
      | None => job_title
      end
    else job_title in
  let job_title :=
    if String.eqb job_title "N/A" then
      match find_div_job_title soup with
      | Some text => strip text
      | None => job_title
      end
    else job_title in
  job_title.

(** The fields of a record that [scrape_job] reads with a label. *)
Definition label_fields (job : JobData) : list string :=
  [publication_date job; workload job; contract_type job; salary job; languages job;
   place_of_work job].

Definition get_text (soup : Soup) (label : string) : string :=
  if String.eqb label "title" then extract_title soup
  else match find_label_next_span soup label with
       | Some text => strip text
       | None => "N/A"
       end.

Section Methods.

Variable cfg : Config.
Variable net : nat -> string -> Fetcher.outcome.

(** [BeautifulSoup(job_html, "html.parser")]. *)
Variable parse : string -> Soup.

(** [str(job_details)] in the log record. *)
Variable repr : JobData -> string.

Definition scrape_job (job_url : string) (s : t) (p : ProgressTracker.t) (w : World)
  : option JobData * t * ProgressTracker.t * World :=
  if decide (job_url ∈ seen_jobs s) then
    (None, s, p, logging WARNING ("Skipping duplicate job: " +:+ job_url) w)
  else
    let s1 := {| seen_jobs := seen_jobs s ∪ {[job_url]}; job_id := job_id s;
                 scraped_jobs := scraped_jobs s |} in
    let '(job_html, w1) := Fetcher.fetch_page cfg net job_url w in
    match job_html with
    | Some (String _ _ as job_html) =>
        let soup := parse job_html in
        let job_details :=
          {| id := job_id s1;
             url := job_url;
             title := get_text soup "title";
             publication_date := or_NA (get_text soup "Publication date:");
             workload := or_NA (get_text soup "Workload:");
             contract_type := or_NA (get_text soup "Contract type:");
             salary := or_NA (get_text soup "Salary:");
             languages := or_NA (get_text soup "Language:");
             place_of_work := or_NA (get_text soup "Place of work:") |} in
        let s2 := {| seen_jobs := seen_jobs s1; job_id := job_id s1 + 1;
                     scraped_jobs := scraped_jobs s1 ++ [job_details] |} in
        (Some job_details, s2, ProgressTracker.update_scrape p,
         logging INFO ("Scraped job data: " +:+ repr job_details) w1)
    | _ =>
        (None, s1, p, logging ERROR ("Failed to fetch job page: " +:+ job_url) w1)
    end.

(** [worker]: one [scrape_job] per address that [job_queue.get] hands
    out, until the queue stays empty for ten seconds. *)
Fixpoint worker (job_queue : list string) (s : t) (p : ProgressTracker.t) (w : World)
  : t * ProgressTracker.t * World :=
  match job_queue with
  | [] => (s, p, logging INFO "Scraper worker found empty queue, stopping." w)
  | job_url :: job_queue' =>
      let '(_, s1, p1, w1) := scrape_job job_url s p w in
      worker job_queue' s1 p1 w1
  end.

End Methods.

End Scraper.

(** ** data_saver.py

    The three sinks are modelled on their success path: a write appends
    its rows. The [except] branches of the three writers only log. *)

Module DataSaver.

Inductive csv_line := Header | Row (job : JobData).

(** One row of the [job_descriptions] table. *)
Definition db_row (job : JobData) : list string :=
  [title job; url job; publication_date job; workload job; contract_type job;
   salary job; languages job; place_of_work job].

Record t := {
  job_queue : list JobData;        (* the Save Queue *)
  seen_jobs : gset string;
  csv_file : list csv_line;        (* [] is a missing or empty file *)
  json_file : list JobData;        (* [] is a missing or corrupt file *)
  db_table : list (list string)
}.

(** [DataSaver()]: an empty queue and an empty set; the three files are
    what earlier runs left. *)
Definition init (csv : list csv_line) (json : list JobData) (db : list (list string)) : t :=
  {| job_queue := []; seen_jobs := ∅; csv_file := csv; json_file := json; db_table := db |}.

Definition batch_size : Z := 50.

(** The records of the data rows of a CSV file. *)
Definition csv_rows (lines : list csv_line) : list JobData :=
  flat_map (fun line => match line with Header => [] | Row job => [job] end) lines.

(** The Save Queue holds one record per address of [seen_jobs]. *)
Definition queue_matches_seen (d : t) : Prop :=
  NoDup (url <$> job_queue d) /\
  forall u, u ∈ seen_jobs d <-> u ∈ url <$> job_queue d.

(** What one [self.job_queue.get(timeout=10)] of [process_queue] gives:
    a job, or [queue.Empty] after ten idle seconds, together with the
    value of [time.time() - last_save_time >= 10] at that moment. *)
Inductive get := Got (job : JobData) | Empty (idle : bool).

Section Methods.

Variable cfg : Config.

Definition save_job (job_data : JobData) (d : t) (w : World) : t * World :=
  let job_url := url job_data in
  if decide (job_url ∈ seen_jobs d) then
    (d, logging WARNING ("Duplicate job skipped: " +:+ job_url) w)
  else
    ({| job_queue := job_queue d ++ [job_data];
        seen_jobs := seen_jobs d ∪ {[job_url]};
        csv_file := csv_file d; json_file := json_file d; db_table := db_table d |},
     w).

Definition saved_msg (job_list : list JobData) (sink : string) : string :=
  "Saved " +:+ pretty (Z.of_nat (length job_list)) +:+ " jobs to " +:+ sink.

Definition save_to_csv (job_list : list JobData) (d : t) (w : World) : t * World :=
  match job_list with
  | [] => (d, logging WARNING "No job data to save." w)
  | _ :: _ =>
      let header := match csv_file d with [] => [Header] | _ :: _ => [] end in
      ({| job_queue := job_queue d; seen_jobs := seen_jobs d;
          csv_file := csv_file d ++ header ++ map Row job_list;
          json_file := json_file d; db_table := db_table d |},
       logging INFO (saved_msg job_list
                       ("CSV: " +:+ path_join (DATA_FOLDER cfg) "job_descriptions.csv")) w)
  end.

Definition save_to_json (job_list : list JobData) (d : t) (w : World) : t * World :=
  match job_list with
  | [] => (d, logging WARNING "No job data to save." w)
  | _ :: _ =>
      ({| job_queue := job_queue d; seen_jobs := seen_jobs d; csv_file := csv_file d;
          json_file := json_file d ++ job_list; db_table := db_table d |},
       logging INFO (saved_msg job_list
                       ("JSON: " +:+ path_join (DATA_FOLDER cfg) "job_descriptions.json")) w)
  end.

Definition save_to_duckdb (job_list : list JobData) (d : t) (w : World) : t * World :=
  ({| job_queue := job_queue d; seen_jobs := seen_jobs d; csv_file := csv_file d;
      json_file := json_file d; db_table := db_table d ++ map db_row job_list |},
   logging INFO (saved_msg job_list "DuckDB database.") w).

Definition batch_save_jobs (job_list : list JobData) (d : t) (w : World) : t * World :=
  match job_list with
  | [] => (d, logging WARNING "No job data available to save." w)
  | _ :: _ =>
      let '(d1, w1) := save_to_csv job_list d w in
      let '(d2, w2) := save_to_json job_list d1 w1 in
      save_to_duckdb job_list d2 w2
  end.

(** [process_queue] over the results of its successive [get] calls;
    [batch] is the local list. The boolean tells whether the loop was
    left by [break]; when the results run out the thread is waiting in
    the next [get]. *)
Fixpoint process_queue (gets : list get) (batch : list JobData) (d : t) (w : World)
  : bool * list JobData * t * World :=
  match gets with
  | [] => (false, batch, d, w)
  | Got job :: gets' =>
      let batch := batch ++ [job] in
      if batch_size <=? Z.of_nat (length batch) then
        let '(d1, w1) := batch_save_jobs batch d w in
        process_queue gets' [] d1 w1
      else process_queue gets' batch d w
  | Empty idle :: gets' =>
      match batch with
      | _ :: _ =>
          if idle then
            let '(d1, w1) := batch_save_jobs batch d w in
            (true, [], d1, logging INFO "Final batch saved after timeout." w1)
          else process_queue gets' batch d w
      | [] => process_queue gets' batch d w
      end
  end.

(** Every job of the Save Queue handed to the background thread in
    order, followed by one idle timeout. *)
Definition drain (d : t) (w : World) : bool * list JobData * t * World :=
  process_queue (map Got (job_queue d) ++ [Empty true]) []
    {| job_queue := []; seen_jobs := seen_jobs d; csv_file := csv_file d;
       json_file := json_file d; db_table := db_table d |} w.

(** [save_job] for each record of a list, in order. *)
Fixpoint submit (jobs : list JobData) (d : t) (w : World) : t * World :=
  match jobs with
  | [] => (d, w)
  | job_data :: jobs' => let '(d1, w1) := save_job job_data d w in submit jobs' d1 w1
  end.

(** The jobs among the results of [get], in order. *)
Definition jobs_of (gets : list get) : list JobData :=
  flat_map (fun g => match g with Got job => [job] | Empty _ => [] end) gets.

(** The header line that a write of [job_list] to the CSV file [file]
    puts before its rows: a missing or empty file gets one. *)
Definition header_for (file : list csv_line) (job_list : list JobData) : list csv_line :=
  match file, job_list with
  | [], _ :: _ => [Header]
  | _, _ => []
  end.

End Methods.

End DataSaver.

(** ** downloader.py *)

Module Downloader.

Record t := { num_html_saved : Z }.

Definition init : t := {| num_html_saved := 0 |}.

(** [f"job_{file_index}.html"], the name inside the raw-page directory. *)
Definition html_name (file_index : Z) : string :=
  "job_" +:+ pretty file_index +:+ ".html".

Section Methods.

Variable cfg : Config.
Variable net : nat -> string -> Fetcher.outcome.

Definition limit_msg (d : t) : string :=
  pretty (num_html_saved d) +:+ "/" +:+ pretty (HTML_FILE_LIMIT cfg).

(** [while True:] of [download_jobs]. [q] holds the items still in the
    queue and [unfinished] is the queue's count of tasks without a
    [task_done()]. The result has the items left in the queue. *)
Fixpoint download_loop (q : list string) (unfinished : nat)
    (d : t) (p : ProgressTracker.t) (w : World)
  : list string * nat * t * ProgressTracker.t * World :=
  match q with
  | [] => ([], unfinished, d, p, logging INFO "Download queue is empty, stopping." w)
  | job_url :: q' =>
      if negb (String.prefix "https" job_url) then
        download_loop q' (Nat.pred unfinished) d p
          (logging ERROR ("Invalid data in download queue: " +:+ job_url) w)
      else
        let '(job_html, w1) := Fetcher.fetch_page cfg net job_url w in
        match job_html with
        | Some (String _ _ as job_html) =>
            if HTML_FILE_LIMIT cfg <=? num_html_saved d then
              (q', unfinished, d, p,
               logging INFO ("Download limit reached: " +:+ limit_msg d) w1)
            else
              let d1 := {| num_html_saved := num_html_saved d + 1 |} in
              let file_index := num_html_saved d1 in
              download_loop q' (Nat.pred unfinished) d1
                (ProgressTracker.update_download p)
                (write_html (html_name file_index) job_html w1)
        | _ =>
            download_loop q' (Nat.pred unfinished) d p
              (logging WARNING ("Skipping download, empty HTML for: " +:+ job_url) w1)
        end
  end.

(** [download_jobs] run by one worker on a queue that no producer
    feeds any more. [None]: [download_queue.join()] never returns,
    because an item was taken without a [task_done()]. *)
Definition download_jobs (download_queue : list string)
    (d : t) (p : ProgressTracker.t) (w : World)
  : option (list string * t * ProgressTracker.t * World) :=
  match download_queue with
  | [] => Some ([], d, p, logging WARNING "No jobs available for download." w)
  | _ :: _ =>
      let '(q', unfinished, d1, p1, w1) :=
        download_loop download_queue (length download_queue) d p
          (logging INFO "Starting downloading process..." w) in
      let w2 := logging INFO ("Saved " +:+ limit_msg d1 +:+ " files.") w1 in
      match unfinished with
      | O =>
          Some (q', d1, ProgressTracker.set_downloading_done true p1,
                logging INFO "Downloading process finished." w2)
      | S _ => None
      end
  end.

(** The raw-page directory is flat, so [os.walk] lists its files once,
    in an order the file system chooses. *)
Definition zip_html_files (d : t) (w : World) : World :=
  if num_html_saved d <? HTML_FILE_LIMIT cfg then
    logging INFO "Not enough HTML files to zip yet." w
  else
    let entries := map_to_list (html_folder w) in
    let w1 :=
      fold_left (fun w e => logging INFO ("Added " +:+ fst e +:+ " to zip") w)
        entries (write_zip entries w) in
    logging INFO ("Zipped HTML files to " +:+
                  path_join (DATA_FOLDER cfg) "job_html_files.zip") w1.

End Methods.

(** The names [job_1.html] ... [job_n.html]. *)
Definition html_names (n : Z) : gset string :=
  list_to_set (html_name <$> Fetcher.range 1 (n + 1)).

End Downloader.

(** ** The start of a run *)

(** config.py as it is in the repository; [data] stands for the absolute
    path that [DATA_FOLDER] is computed to. *)
Definition config : Config :=
  {| DATA_FOLDER := "data";
     NUM_JOBS := 1000;
     HTML_FILE_LIMIT := 90;
     MAX_RETRIES := 3;
     JOB_TITLES :=
       ["Elektroniker"; "Informatiker"; "Arzt"; "Buchhalter"; "Ingenieur"; "Mechaniker";
        "Lehrer"; "Verkäufer"; "Koch"; "Krankenpfleger"; "Zahnarzt"; "Rechtsanwalt";
        "Architekt"; "Bankkaufmann"; "Bauleiter"; "Bürokaufmann"; "Chemiker"; "Dachdecker";
        "Designer"; "Diplomkaufmann"; "Dreher"; "Einzelhandelskaufmann"; "Ergotherapeut";
        "Erzieher"; "Fachinformatiker"; "Flugbegleiter"; "Friseur"; "Gärtner";
        "Gebäudereiniger"; "Geologe"; "Grafiker"; "Hausmeister"; "Heilpraktiker";
        "Hotelfachmann"; "Immobilienmakler"; "Industriekaufmann";
        "Ingenieur für Maschinenbau"; "Installateur"; "Journalist"; "Kälteanlagenbauer";
        "Kameramann"; "Kapitän"; "Kassierer"; "Kfz-Mechatroniker"; "Kindergärtner";
        "Klempner"; "Konditor"; "Kosmetiker"; "Kriminalbeamter"; "Lackierer"; "Landwirt";
        "Logistiker"; "Luftverkehrskaufmann"; "Maler"; "Masseur"; "Mediengestalter";
        "Meeresbiologe"; "Metzger"; "Möbeltischler"; "Musiker"; "Notar"; "Obstbauer";
        "Optiker"; "Orthopäde"; "Pädagoge"; "Pilot"; "Polizist"; "Postbote";
        "Programmierer"; "Psychologe"; "Radiologe"; "Reinigungskraft";
        "Restaurantfachmann"; "Sanitäter"; "Schneider"; "Schornsteinfeger"; "Schreiner";
        "Sozialarbeiter"; "Spezialtiefbauer"; "Speditionskaufmann"; "Sportlehrer";
        "Steuerberater"; "Strassenbauer"; "Systemadministrator"; "Tänzer";
        "Technischer Zeichner"; "Tierarzt"; "Tischler"; "Tontechniker"; "Übersetzer";
        "Uhrmacher"; "Umweltingenieur"; "Veranstaltungstechniker"; "Verfahrensmechaniker";
        "Verkehrsplaner"; "Versicherungskaufmann"; "Verwaltungsfachangestellter";
        "Weintechnologe"; "Werkzeugmechaniker"; "Wirtschaftsprüfer"; "Zimmermann"] |}.

(** Nothing requested, logged or written yet, an empty raw-page directory
    and no archive. *)
Definition fresh_world : World :=
  {| requests := []; sleeps := []; log := []; stdout := [];
     html_folder := ∅; zip_file := None |}.

(** A network on which the first request of the run times out and every
    later one is answered with a page. *)
Definition flaky_net (n : nat) (url : string) : Fetcher.outcome :=
  match n with
  | O => Fetcher.Raises Fetcher.Timeout
  | S _ => Fetcher.Response 200 "<html>ok</html>"
  end.

(** A network that answers every request with the same page. *)
Definition steady_net (text : string) (n : nat) (url : string) : Fetcher.outcome :=
  Fetcher.Response 200 text.

(** The parse of a page on which no tag is found. *)
Definition no_soup (job_html : string) : Scraper.Soup :=
  {| Scraper.find_title := None; Scraper.find_h1 := None;
     Scraper.find_div_job_title := None;
     Scraper.find_label_next_span := fun _ => None |}.

(** A network on which every request fails to connect. *)
Definition dead_net (n : nat) (url : string) : Fetcher.outcome :=
  Fetcher.Raises Fetcher.ConnectionError.

(** * Properties *)

(** ** ProgressTracker *)

Section ProgressTrackerFacts.
Import ProgressTracker.

Lemma init_counters_ok total limit :
  0 <= total -> 0 <= limit -> counters_ok (init total limit).
Proof. unfold counters_ok; simpl; lia. Qed.

Lemma update_fetch_counters_ok p : counters_ok p -> counters_ok (update_fetch p).
Proof.
  unfold counters_ok, update_fetch; intros H.
  destruct (Z.ltb_spec (fetched p) (total_jobs p));
    match goal with |- context [if ?b then _ else _] => destruct b end;
    simpl; lia.
Qed.

Lemma update_scrape_counters_ok p : counters_ok p -> counters_ok (update_scrape p).
Proof.
  unfold counters_ok, update_scrape; intros H.
  destruct (fetching_done p); simpl; [|lia].
  destruct (Z.ltb_spec (scraped p) (fetched p));
    match goal with |- context [if ?b then _ else _] => destruct b end;
    simpl; lia.
Qed.

Lemma update_download_counters_ok p : counters_ok p -> counters_ok (update_download p).
Proof.
  unfold counters_ok, update_download; intros H.
  destruct (Z.ltb_spec (downloaded p) (html_file_limit p)); simpl; lia.
Qed.

Lemma apply_call_counters_ok c p : counters_ok p -> counters_ok (apply_call c p).
Proof.
  destruct c; simpl;
    auto using update_fetch_counters_ok, update_scrape_counters_ok,
               update_download_counters_ok.
Qed.

Lemma states_after_counters_ok calls :
  forall p, counters_ok p -> Forall counters_ok (states_after calls p).
Proof.
  induction calls as [|c calls IH]; intros p Hp; simpl; constructor.
  - now apply apply_call_counters_ok.
  - apply IH. now apply apply_call_counters_ok.
Qed.

(** A call leaves each counter as it is or adds one to it, and changes
    neither ceiling. *)
Lemma apply_call_increment c p :
  let p' := apply_call c p in
  (fetched p' = fetched p \/ fetched p' = fetched p + 1) /\
  (scraped p' = scraped p \/ scraped p' = scraped p + 1) /\
  (downloaded p' = downloaded p \/ downloaded p' = downloaded p + 1) /\
  total_jobs p' = total_jobs p /\ html_file_limit p' = html_file_limit p.
Proof.
  destruct c; simpl; unfold update_fetch, update_scrape, update_download;
    repeat match goal with |- context [if ?b then _ else _] => destruct b end;
    simpl; auto.
Qed.

(** C2. On a tracker created for a non-negative job target and a
    non-negative archive cap, after each call of any sequence of
    [update_fetch], [update_scrape] and [update_download] calls,
    [0 <= scraped <= fetched <= total_jobs] and
    [0 <= downloaded <= html_file_limit]; and a call adds one to a
    counter or leaves it. *)
Theorem progress_counters_bounded (total limit : Z) (calls : list call) :
  0 <= total -> 0 <= limit ->
  Forall counters_ok (states_after calls (init total limit)) /\
  forall c p,
    (fetched (apply_call c p) = fetched p \/ fetched (apply_call c p) = fetched p + 1) /\
    (scraped (apply_call c p) = scraped p \/ scraped (apply_call c p) = scraped p + 1) /\
    (downloaded (apply_call c p) = downloaded p \/
     downloaded (apply_call c p) = downloaded p + 1).
Proof.
  intros Ht Hl. split.
  - apply states_after_counters_ok. now apply init_counters_ok.
  - intros c p. destruct (apply_call_increment c p) as (Hf & Hs & Hd & _). auto.
Qed.

Lemma progress_counters_bounded_witness :
  0 <= 2 /\ 0 <= 1 /\
  Forall counters_ok
    (states_after
       [UpdateScrape; UpdateFetch; UpdateFetch; UpdateFetch; UpdateScrape;
        UpdateDownload; UpdateDownload; UpdateScrape; UpdateScrape]
       (init 2 1)).
Proof.
  split; [lia|]. split; [lia|].
  apply (proj1 (progress_counters_bounded 2 1
           [UpdateScrape; UpdateFetch; UpdateFetch; UpdateFetch; UpdateScrape;
            UpdateDownload; UpdateDownload; UpdateScrape; UpdateScrape]
           ltac:(lia) ltac:(lia))).
Defined.

(** C3. While [fetching_done] is false, [update_scrape] returns the
    tracker it was given: no field changes, [scraped] does not advance. *)
Theorem update_scrape_before_fetching_done (p : t) :
  fetching_done p = false -> update_scrape p = p.
Proof. intros H. unfold update_scrape. now rewrite H. Qed.

Lemma update_scrape_before_fetching_done_witness :
  fetching_done (update_fetch (init 5 2)) = false /\
  update_scrape (update_fetch (init 5 2)) = update_fetch (init 5 2).
Proof.
  split; [reflexivity|].
  apply (update_scrape_before_fetching_done (update_fetch (init 5 2))).
  reflexivity.
Defined.

Lemma complete_wait_keeps_polling p retries :
  downloading_done p = false -> retries < max_retries ->
  forall fuel w, exists w',
    complete_wait fuel retries p w = StillPolling w' /\
    log w' = log w ++ repeat (INFO, still_waiting p) fuel /\
    sleeps w' = sleeps w ++ repeat (Poll 1) fuel.
Proof.
  intros Hd Hr.
  assert (Hc : negb (downloading_done p) && (retries <? max_retries) = true).
  { rewrite Hd. simpl. now apply Z.ltb_lt. }
  induction fuel as [|fuel IH]; intros w.
  - exists w. simpl. rewrite Hc, !app_nil_r. auto.
  - destruct (IH (add_sleep (Poll 1) (logging INFO (still_waiting p) w)))
      as (w' & Hw' & Hlog & Hsl).
    exists w'. simpl complete_wait. rewrite Hc. split; [exact Hw'|].
    rewrite Hlog, Hsl. simpl. now rewrite <- !app_assoc.
Qed.

(** C4 (the code does otherwise). On any tracker whose [downloading_done]
    is false, the polling loop of [complete] has not ended after any
    number of iterations: [retries] is never incremented, so after [fuel]
    iterations there are [fuel] still-waiting records, [fuel] one-second
    sleeps, and [complete] has not returned. *)
Theorem complete_polls_without_bound (total limit nf ns nd : Z) (fd sd : bool)
    (fuel : nat) :
  let p := {| total_jobs := total; html_file_limit := limit;
              fetched := nf; scraped := ns; downloaded := nd;
              fetching_done := fd; scraping_done := sd;
              downloading_done := false |} in
  exists w',
    complete_wait fuel 0 p fresh_world = StillPolling w' /\
    log w' = repeat (INFO, still_waiting p) fuel /\
    sleeps w' = repeat (Poll 1) fuel /\
    forall elapsed, complete fuel elapsed p fresh_world = None.
Proof.
  intros p.
  destruct (complete_wait_keeps_polling p 0 eq_refl eq_refl fuel fresh_world)
    as (w' & Hw' & Hlog & Hsl).
  exists w'. repeat split; try assumption.
  intros elapsed. unfold complete. now rewrite Hw'.
Qed.

End ProgressTrackerFacts.

(** ** The page-count regex *)



(** ** Fetcher *)

Section FetcherFacts.
Import Fetcher.

Variable cfg : Config.
Variable net : nat -> string -> outcome.
Variable quote_plus : string -> string.
Variable select_detail_hrefs : string -> list string.
Variable find_all_script : string -> string + list (option string).

(** Both handlers of the [try] statement return, and so does its body
    when no exception is raised: the statement never falls through. *)
Lemma try_request_returns url w :
  exists r w1,
    try_request net url w = (Returns r, w1) /\
    requests w1 = requests w ++ [url] /\ sleeps w1 = sleeps w.
Proof.
  unfold try_request, request.
  destruct (net (length (requests w)) url) as [status text|e].
  - destruct ((400 <=? status) && (status <? 600)); simpl; eauto.
  - destruct e; simpl; eauto.
Qed.

(** Whatever the network does, [fetch_page] makes one request and never
    sleeps: the statements after the [try] are not reached. *)
Lemma fetch_page_single_request url w :
  0 < MAX_RETRIES cfg ->
  requests (snd (fetch_page cfg net url w)) = requests w ++ [url] /\
  sleeps (snd (fetch_page cfg net url w)) = sleeps w.
Proof.
  intros Hmax. unfold fetch_page.
  destruct (Z.to_nat (MAX_RETRIES cfg)) as [|fuel] eqn:Hfuel; [lia|].
  simpl. destruct (Z.ltb_spec 0 (MAX_RETRIES cfg)); [|lia].
  destruct (try_request_returns url w) as (r & w1 & Htry & Hreq & Hsl).
  rewrite Htry. simpl. auto.
Qed.

Lemma fetch_page_raises url w e :
  0 < MAX_RETRIES cfg ->
  net (length (requests w)) url = Raises e ->
  fst (fetch_page cfg net url w) = None.
Proof.
  intros Hmax Hnet. unfold fetch_page.
  destruct (Z.to_nat (MAX_RETRIES cfg)) as [|fuel] eqn:Hfuel; [lia|].
  simpl. destruct (Z.ltb_spec 0 (MAX_RETRIES cfg)); [|lia].
  unfold try_request, request. rewrite Hnet. now destruct e.
Qed.

(** C6. When the first page of a search term was fetched (the text is
    not empty), the regex finds no match in it, the parser yields the
    script tags and the scan over them finds nothing either,
    [get_total_pages] returns 1. *)
Theorem get_total_pages_default (encoded_job_title : string) (w : World)
    (html : string) (scripts : list (option string)) :
  fst (fetch_page cfg net (first_page_url encoded_job_title) w) = Some html ->
  truthy (Some html) = true ->
  Re.findall html = [] ->
  find_all_script html = inr scripts ->
  scan_scripts scripts = None ->
  fst (get_total_pages cfg net find_all_script encoded_job_title w) = 1.
Proof.
  intros Hfetch Htruthy Hre Hsoup Hscan. unfold get_total_pages.
  destruct (fetch_page cfg net (first_page_url encoded_job_title) w) as [r w1].
  simpl in Hfetch. subst r.
  destruct html as [|c html']; [discriminate|].
  now rewrite Hre, Hsoup, Hscan.
Qed.

(** [get_total_pages] returns 0 when the first page could not be
    fetched, and when the parser raises during the fallback. *)
Lemma get_total_pages_failure encoded_job_title w :
  truthy (fst (fetch_page cfg net (first_page_url encoded_job_title) w)) = false \/
  (exists html e,
      fst (fetch_page cfg net (first_page_url encoded_job_title) w) = Some html /\
      Re.findall html = [] /\ find_all_script html = inl e) ->
  fst (get_total_pages cfg net find_all_script encoded_job_title w) = 0 /\
  requests (snd (get_total_pages cfg net find_all_script encoded_job_title w)) =
    requests (snd (fetch_page cfg net (first_page_url encoded_job_title) w)).
Proof.
  unfold get_total_pages.
  destruct (fetch_page cfg net (first_page_url encoded_job_title) w) as [r w1].
  simpl. intros [Hfalsy | (html & e & Hr & Hre & Hsoup)].
  - destruct r as [[|c html]|]; try discriminate; auto.
  - subst r. destruct html as [|c html]; [auto|].
    now rewrite Hre, Hsoup.
Qed.


(** In a state reached in turn, [fetched_count] is the number of links put on
    the scrape queue, and the download queue holds the first
    [HTML_FILE_LIMIT] of them. *)
Lemma in_turn_counts f :
  reachable_in_turn cfg f ->
  0 <= fetched_count f /\
  Z.of_nat (length (job_queue f)) = fetched_count f /\
  Z.of_nat (length (download_queue f)) =
    Z.max 0 (Z.min (fetched_count f) (HTML_FILE_LIMIT cfg)).
Proof.
  induction 1 as [|link f p Hf IH Hlt|links f Hf IH].
  - simpl. lia.
  - unfold accept_link. simpl.
    destruct (Z.ltb_spec (fetched_count f) (HTML_FILE_LIMIT cfg)); simpl;
      rewrite ?length_app; simpl; lia.
  - simpl. exact IH.
Qed.

Lemma enqueue_links_in_turn new_links :
  forall f p b f' p',
    reachable_in_turn cfg f ->
    enqueue_links cfg new_links f p = (b, f', p') -> reachable_in_turn cfg f'.
Proof.
  induction new_links as [|link new_links IH]; intros f p b f' p' Hf H;
    cbn [enqueue_links] in H.
  - now inversion H; subst.
  - destruct (Z.leb_spec (NUM_JOBS cfg) (fetched_count f)).
    + now inversion H; subst.
    + destruct (accept_link cfg link f p) as [f1 p1] eqn:Hacc.
      eapply IH; [|exact H].
      replace f1 with (fst (accept_link cfg link f p)) by now rewrite Hacc.
      now apply in_turn_accept.
Qed.

Lemma fetch_pages_of_in_turn pages job_title enc :
  forall f p w s f' p' w',
    reachable_in_turn cfg f ->
    fetch_pages_of cfg net select_detail_hrefs pages job_title enc f p w = (s, f', p', w') ->
    reachable_in_turn cfg f'.
Proof.
  induction pages as [|page pages IH]; intros f p w s f' p' w' Hf H; simpl in H.
  - now inversion H; subst.
  - destruct (NUM_JOBS cfg <=? fetched_count f); [now inversion H; subst|].
    destruct (fetch_page cfg net (page_url page enc) w) as [[[|c html]|] w1];
      try (now inversion H; subst).
    destruct (extract_job_links select_detail_hrefs (String c html)) as [|l ls];
      [now inversion H; subst|].
    destruct (filter (fun link => link ∉ seen_urls f) (l :: ls)) as [|n ns].
    + eapply IH; eauto.
    + destruct (enqueue_links cfg (n :: ns) f p) as [[b f1] p1] eqn:Henq.
      pose proof (enqueue_links_in_turn _ _ _ _ _ _ Hf Henq) as Hf1.
      destruct b.
      * now inversion H; subst.
      * eapply IH; [|exact H]. now constructor.
Qed.

Lemma fetch_titles_in_turn titles :
  forall f p w f' p' w',
    reachable_in_turn cfg f ->
    fetch_titles cfg net quote_plus select_detail_hrefs find_all_script titles f p w =
      (f', p', w') ->
    reachable_in_turn cfg f'.
Proof.
  induction titles as [|job_title titles IH]; intros f p w f' p' w' Hf H; simpl in H.
  - now inversion H; subst.
  - destruct (fetch_title cfg net quote_plus select_detail_hrefs find_all_script
                job_title f p w) as [[[s f1] p1] w1] eqn:Ht.
    assert (Hf1 : reachable_in_turn cfg f1).
    { unfold fetch_title in Ht.
      destruct (get_total_pages cfg net find_all_script (quote_plus job_title) w)
        as [n w0].
      destruct (n =? 0).
      - now inversion Ht; subst.
      - eapply fetch_pages_of_in_turn; eauto. }
    destruct s.
    + eapply IH; eauto.
    + now inversion H; subst.
Qed.

(** What lines 192-196 are written to do, and do as long as no worker
    steps in between the statements of another: a link that passes the
    check of the job target is put on the scrape queue, and on the
    download queue exactly when fewer than [HTML_FILE_LIMIT] links were
    put there before, so that the download queue never holds more than
    [HTML_FILE_LIMIT] links, also after a run of [_fetch_pages] by one
    worker. *)
Lemma accepted_link_queues_in_turn (link : string) (f : t) (p : ProgressTracker.t) :
  reachable_in_turn cfg f ->
  0 <= HTML_FILE_LIMIT cfg ->
  let f' := fst (accept_link cfg link f p) in
  (fetched_count f < NUM_JOBS cfg ->
   enqueue_links cfg [link] f p = (false, f', ProgressTracker.update_fetch p)) /\
  job_queue f' = job_queue f ++ [link] /\
  download_queue f' =
    (if Z.of_nat (length (download_queue f)) <? HTML_FILE_LIMIT cfg
     then download_queue f ++ [link]
     else download_queue f) /\
  Z.of_nat (length (download_queue f')) <= HTML_FILE_LIMIT cfg /\
  (forall p0 w0 f1 p1 w1,
      _fetch_pages cfg net quote_plus select_detail_hrefs find_all_script f p0 w0 =
        (f1, p1, w1) ->
      Z.of_nat (length (download_queue f1)) <= HTML_FILE_LIMIT cfg).
Proof.
  intros Hf Hlim f'.
  destruct (in_turn_counts f Hf) as (Hpos & Hjobs & Hdl).
  assert (Hdl' : download_queue f' =
                 (if Z.of_nat (length (download_queue f)) <? HTML_FILE_LIMIT cfg
                  then download_queue f ++ [link] else download_queue f)).
  { subst f'. unfold accept_link. simpl.
    destruct (Z.ltb_spec (fetched_count f) (HTML_FILE_LIMIT cfg));
      destruct (Z.ltb_spec (Z.of_nat (length (download_queue f))) (HTML_FILE_LIMIT cfg));
      simpl; try reflexivity; lia. }
  split; [|split; [|split; [|split]]].
  - intros Hlt. simpl. destruct (Z.leb_spec (NUM_JOBS cfg) (fetched_count f)); [lia|].
    reflexivity.
  - subst f'. unfold accept_link. simpl.
    now destruct (fetched_count f <? HTML_FILE_LIMIT cfg).
  - exact Hdl'.
  - rewrite Hdl'.
    destruct (Z.ltb_spec (Z.of_nat (length (download_queue f))) (HTML_FILE_LIMIT cfg));
      rewrite ?length_app; simpl; lia.
  - intros p0 w0 f1 p1 w1 Hrun.
    pose proof (fetch_titles_in_turn _ _ _ _ _ _ _ Hf Hrun) as Hf1.
    destruct (in_turn_counts f1 Hf1) as (? & ? & ?). lia.
Qed.

End FetcherFacts.

(** ** Link discovery by several workers *)

Section FetcherInterleaving.
Import Fetcher.

Variable cfg : Config.

Lemma count_insert (c : worker -> bool) (ws : list worker) :
  forall i wk wk',
    ws !! i = Some wk ->
    count c (<[i := wk']> ws) =
      count c ws - (if c wk then 1 else 0) + (if c wk' then 1 else 0).
Proof.
  unfold count. induction ws as [|x ws IH]; intros i wk wk' Hi; [discriminate|].
  destruct i as [|i]; simpl in *.
  - injection Hi as ->. destruct (c wk), (c wk'); simpl; lia.
  - specialize (IH i wk wk' Hi). destruct (c x); simpl; lia.
Qed.

Lemma count_replicate_away (c : worker -> bool) n :
  c away = false -> count c (replicate n away) = 0.
Proof.
  intros Hc. unfold count. induction n as [|n IH]; [reflexivity|].
  simpl. rewrite Hc. exact IH.
Qed.

Lemma worker_sound_mono slack slack' jq jq' wk :
  slack <= slack' -> (forall link, link ∈ jq -> link ∈ jq') ->
  worker_sound slack jq wk -> worker_sound slack' jq' wk.
Proof.
  unfold worker_sound. intros Hs Hq H.
  destruct (at_point wk); try exact H; try lia.
  - destruct H as (link & rest & Ht & Hin). eauto.
  - destruct H as (link & rest & Ht & Hin). eauto.
Qed.

(** Replacing one worker and the fetcher keeps the system sound when
    the new worker and the new fetcher fit together. *)
Lemma sound_insert ws f p i wk wk' f' p' (bi bi' bc bc' : bool) :
  sound cfg (ws, f, p) ->
  ws !! i = Some wk ->
  increment_pending wk = bi -> increment_pending wk' = bi' ->
  cap_pending wk = bc -> cap_pending wk' = bc' ->
  let pending := count increment_pending ws - (if bi then 1 else 0) + (if bi' then 1 else 0) in
  0 <= fetched_count f' ->
  fetched_count f' + pending <= Z.of_nat (length (job_queue f')) ->
  Z.of_nat (length (download_queue f')) +
    (count cap_pending ws - (if bc then 1 else 0) + (if bc' then 1 else 0)) <=
    Z.of_nat (length (job_queue f')) ->
  (forall link, link ∈ download_queue f' -> link ∈ job_queue f') ->
  (forall link, link ∈ job_queue f -> link ∈ job_queue f') ->
  Z.of_nat (length (job_queue f)) - count increment_pending ws <=
    Z.of_nat (length (job_queue f')) - pending ->
  worker_sound (Z.of_nat (length (job_queue f')) - pending) (job_queue f') wk' ->
  (HTML_FILE_LIMIT cfg <= 0 -> download_queue f' = [] /\ at_point wk' <> AtPutDownload) ->
  sound cfg (<[i := wk']> ws, f', p').
Proof.
  intros (Hfc & Hinc & Hcap & Hsub & Hall & Hzero) Hi <- <- <- <- pending
    Hfc' Hinc' Hcap' Hsub' Hgrow Hslack Hwk' Hzero'.
  unfold sound. rewrite !(count_insert _ ws i wk wk' Hi).
  split; [exact Hfc'|]. split; [exact Hinc'|]. split; [exact Hcap'|].
  split; [exact Hsub'|]. split.
  - apply Forall_insert; [|exact Hwk'].
    eapply Forall_impl; [exact Hall|]. intros x Hx.
    eapply worker_sound_mono; [exact Hslack | exact Hgrow | exact Hx].
  - intros Hlim. destruct (Hzero Hlim) as [_ Hno]. destruct (Hzero' Hlim) as [Hdl Hpt].
    split; [exact Hdl|]. now apply Forall_insert.
Qed.

Ltac fit Hs Hi Hat :=
  cbn [fst snd];
  eapply (sound_insert _ _ _ _ _ _ _ _ _ _ _ _ Hs Hi);
  [unfold increment_pending; rewrite Hat; reflexivity
  |unfold increment_pending; cbn [at_point away]; reflexivity
  |unfold cap_pending; rewrite Hat; reflexivity
  |unfold cap_pending; cbn [at_point away]; reflexivity
  |..];
  cbv zeta; cbv iota; unfold worker_sound;
  cbn [at_point todo new_links away put_job put_download set_fetched_count
       update_seen_urls job_queue download_queue fetched_count];
  rewrite ?length_app; cbn [length].

Ltac close Hsub Hempty :=
  try first [ lia | exact Hsub | exact I | (intros ? H0; exact H0)
            | (intros ? H0; apply elem_of_app; left; exact H0)
            | (intros ? H0; apply elem_of_app; left; apply Hsub; exact H0)
            | (intros Hlim; split; [now apply Hempty | discriminate]) ].

Lemma step_worker_sound ws f p i wk :
  sound cfg (ws, f, p) ->
  ws !! i = Some wk ->
  sound cfg (<[i := fst (fst (step_worker cfg wk f p))]> ws,
             snd (fst (step_worker cfg wk f p)), snd (step_worker cfg wk f p)).
Proof.
  intros Hs Hi. pose proof Hs as (Hfc & Hinc & Hcap & Hsub & Hall & Hzero).
  pose proof (Forall_lookup_1 _ _ _ _ Hall Hi) as Hwk.
  assert (Hsame : sound cfg (<[i := wk]> ws, f, p)) by (now rewrite list_insert_id).
  assert (Hno : HTML_FILE_LIMIT cfg <= 0 -> at_point wk <> AtPutDownload).
  { intros Hlim. destruct (Hzero Hlim) as [_ H]. exact (Forall_lookup_1 _ _ _ _ H Hi). }
  assert (Hempty : HTML_FILE_LIMIT cfg <= 0 -> download_queue f = []).
  { intros Hlim. now destruct (Hzero Hlim). }
  assert (Hki : increment_pending wk = true -> 1 <= count increment_pending ws).
  { pose proof (count_insert increment_pending ws i wk away Hi) as H1.
    unfold count in *. simpl in H1. intros E; rewrite E in *; lia. }
  assert (Hkc : cap_pending wk = true -> 1 <= count cap_pending ws).
  { pose proof (count_insert cap_pending ws i wk away Hi) as H2.
    unfold count in *. simpl in H2. intros E; rewrite E in *; lia. }
  unfold worker_sound in Hwk. unfold step_worker.
  destruct (at_point wk) eqn:Hat; destruct (todo wk) as [|link rest] eqn:Htodo;
    rewrite ?Hat in Hwk; try exact Hsame;
    try (specialize (Hki ltac:(unfold increment_pending; now rewrite Hat)));
    try (specialize (Hkc ltac:(unfold cap_pending; now rewrite Hat))).
  - (* the test of the job target *)
    destruct (Z.leb_spec (NUM_JOBS cfg) (fetched_count f)); fit Hs Hi Hat; close Hsub Hempty.
  - (* job_queue.put *)
    fit Hs Hi Hat; close Hsub Hempty.
    exists link, rest. split; [reflexivity|]. apply elem_of_app. right.
    apply elem_of_cons. now left.
  - (* the test of the cap *)
    destruct (Z.ltb_spec (fetched_count f) (HTML_FILE_LIMIT cfg)); fit Hs Hi Hat;
      close Hsub Hempty.
    exact Hwk.
  - (* download_queue.put *)
    destruct Hwk as (link0 & rest0 & Heq & Hin). injection Heq as <- <-.
    fit Hs Hi Hat; close Hsub Hempty.
    + intros l Hl. apply elem_of_app in Hl as [Hl|Hl]; [now apply Hsub|].
      apply elem_of_cons in Hl as [->|Hl]; [exact Hin | inversion Hl].
    + intros Hlim. exfalso. now apply (Hno Hlim).
  - (* the read of fetched_count *)
    fit Hs Hi Hat; close Hsub Hempty.
  - (* the store *)
    fit Hs Hi Hat; close Hsub Hempty.
  - (* update_fetch *)
    destruct rest; fit Hs Hi Hat; close Hsub Hempty.
  - (* seen_urls.update, with nothing left to handle *)
    fit Hs Hi Hat; close Hsub Hempty.
  - fit Hs Hi Hat; close Hsub Hempty.
Qed.

Lemma perform_sound e s : sound cfg s -> sound cfg (perform cfg e s).
Proof.
  destruct s as [[ws f] p]. intros Hs. destruct e as [i links|i]; cbn [perform].
  - destruct (ws !! i) as [wk|] eqn:Hi; [|exact Hs].
    destruct links as [|l links]; [exact Hs|].
    destruct (at_point wk) eqn:Hat; try exact Hs.
    pose proof Hs as (Hfc & Hinc & Hcap & Hsub & Hall & Hzero).
    assert (Hempty : HTML_FILE_LIMIT cfg <= 0 -> download_queue f = []).
    { intros Hlim. now destruct (Hzero Hlim). }
    eapply (sound_insert _ _ _ _ _ _ _ _ false false false false Hs Hi);
      [unfold increment_pending; rewrite Hat; reflexivity
      |reflexivity
      |unfold cap_pending; rewrite Hat; reflexivity
      |reflexivity
      |..]; cbv zeta; cbv iota; unfold worker_sound; cbn [at_point entering];
      close Hsub Hempty.
  - destruct (ws !! i) as [wk|] eqn:Hi; [|exact Hs].
    pose proof (step_worker_sound ws f p i wk Hs Hi) as H.
    destruct (step_worker cfg wk f p) as [[wk' f'] p']. exact H.
Qed.

Lemma interleave_sound es : forall s, sound cfg s -> sound cfg (interleave cfg es s).
Proof.
  unfold interleave. induction es as [|e es IH]; intros s Hs; [exact Hs|].
  simpl. apply IH. now apply perform_sound.
Qed.

Lemma start_sound n p : sound cfg (start n p).
Proof.
  unfold start, sound. rewrite !count_replicate_away by reflexivity. simpl.
  split; [lia|]. split; [lia|]. split; [lia|].
  split; [intros link H; inversion H|]. split.
  - apply Forall_replicate. exact I.
  - intros _. split; [reflexivity|]. apply Forall_replicate. discriminate.
Qed.

(** What holds of every state that link discovery reaches. *)
Lemma reachable_sound f :
  reachable cfg f ->
  0 <= fetched_count f <= Z.of_nat (length (job_queue f)) /\
  (length (download_queue f) <= length (job_queue f))%nat /\
  (forall link, link ∈ download_queue f -> link ∈ job_queue f) /\
  (HTML_FILE_LIMIT cfg <= 0 -> download_queue f = []).
Proof.
  intros (n & p & es & ws & p' & Hrun).
  pose proof (interleave_sound es _ (start_sound n p)) as Hs. rewrite Hrun in Hs.
  destruct Hs as (Hfc & Hinc & Hcap & Hsub & _ & Hzero).
  assert (Hi : 0 <= count increment_pending ws) by (unfold count; lia).
  assert (Hc : 0 <= count cap_pending ws) by (unfold count; lia).
  split; [lia|]. split; [lia|]. split; [exact Hsub|].
  intros Hlim. now destruct (Hzero Hlim).
Qed.

Ltac next_event :=
  cbn [perform lookup list_lookup]; unfold step_worker;
  cbn [entering away at_point todo new_links fst snd put_job put_download
       set_fetched_count update_seen_urls job_queue download_queue fetched_count seen_urls
       list_insert insert].

(** A worker that no other worker interrupts does with a link what
    [accept_link] says. *)
Lemma accept_link_alone link f p :
  fetched_count f < NUM_JOBS cfg ->
  exists es ws',
    interleave cfg es ([entering [link]], f, p) =
      (ws', fst (accept_link cfg link f p), snd (accept_link cfg link f p)).
Proof.
  intros Hroom.
  assert (Hn : (NUM_JOBS cfg <=? fetched_count f) = false) by (apply Z.leb_gt; exact Hroom).
  unfold accept_link. cbn [fst snd put_job fetched_count].
  destruct (fetched_count f <? HTML_FILE_LIMIT cfg) eqn:Hcap.
  - exists (repeat (Step 0) 7). eexists.
    unfold interleave. cbn [repeat fold_left].
    next_event. rewrite Hn. next_event. next_event. rewrite Hcap.
    do 4 next_event. reflexivity.
  - exists (repeat (Step 0) 6). eexists.
    unfold interleave. cbn [repeat fold_left].
    next_event. rewrite Hn. next_event. next_event. rewrite Hcap.
    do 3 next_event. reflexivity.
Qed.

(** C9 (the code does otherwise). Two workers, each with a new link in
    hand, on a fetcher below the job target and below the cap: when both
    have made the test of line 193 before either has run line 195, both
    links are put on the download queue. The test reads [fetched_count],
    which neither worker has incremented yet, and no lock spans the test
    and the increment. From a download queue of [HTML_FILE_LIMIT - 1]
    links this gives one of [HTML_FILE_LIMIT + 1]. *)
Theorem download_queue_passes_cap (a b : string) (f : t) (p : ProgressTracker.t) :
  fetched_count f < NUM_JOBS cfg ->
  fetched_count f < HTML_FILE_LIMIT cfg ->
  exists ws' f' p',
    interleave cfg racing ([entering [a]; entering [b]], f, p) = (ws', f', p') /\
    job_queue f' = job_queue f ++ [a; b] /\
    download_queue f' = download_queue f ++ [a; b] /\
    length (download_queue f') = (length (download_queue f) + 2)%nat /\
    fetched_count f' = fetched_count f + 2.
Proof.
  intros Hroom Hcap.
  assert (Hn : (NUM_JOBS cfg <=? fetched_count f) = false) by (apply Z.leb_gt; exact Hroom).
  assert (Hc : (fetched_count f <? HTML_FILE_LIMIT cfg) = true) by (apply Z.ltb_lt; exact Hcap).
  unfold racing, interleave. cbn [fold_left].
  next_event. rewrite Hn. next_event. rewrite Hn. do 2 next_event.
  next_event. rewrite Hc. next_event. rewrite Hc. do 8 next_event.
  eexists _, _, _. split; [reflexivity|].
  cbn [job_queue download_queue fetched_count set_fetched_count put_download put_job].
  rewrite <- !app_assoc, !length_app. simpl.
  repeat split; lia.
Qed.

(** X8. In every state that link discovery reaches, whatever the number
    of workers and the order in which their statements run, each link
    on the download queue is on the scrape queue too, the download queue
    is no longer than the scrape queue, and [fetched_count] is between 0
    and the number of links on the scrape queue. *)
Theorem download_queue_within_scrape_queue (f : t) :
  reachable cfg f ->
  (forall link, link ∈ download_queue f -> link ∈ job_queue f) /\
  (length (download_queue f) <= length (job_queue f))%nat /\
  0 <= fetched_count f <= Z.of_nat (length (job_queue f)).
Proof.
  intros Hf. destruct (reachable_sound f Hf) as (Hfc & Hlen & Hsub & _). auto.
Qed.

End FetcherInterleaving.

Lemma download_queue_passes_cap_witness :
  let cfg := {| DATA_FOLDER := "data"; NUM_JOBS := 5; HTML_FILE_LIMIT := 1;
                MAX_RETRIES := 3; JOB_TITLES := ["Koch"; "Arzt"] |} in
  let a := "https://www.jobs.ch/en/vacancies/detail/a" in
  let b := "https://www.jobs.ch/en/vacancies/detail/b" in
  Fetcher.fetched_count Fetcher.init < NUM_JOBS cfg /\
  Fetcher.fetched_count Fetcher.init < HTML_FILE_LIMIT cfg /\
  exists ws' f' p',
    Fetcher.interleave cfg Fetcher.racing
      ([Fetcher.entering [a]; Fetcher.entering [b]], Fetcher.init, ProgressTracker.init 5 1) =
      (ws', f', p') /\
    Fetcher.download_queue f' = [a; b] /\
    HTML_FILE_LIMIT cfg < Z.of_nat (length (Fetcher.download_queue f')) /\
    Fetcher.reachable cfg f'.
Proof.
  intros cfg a b. split; [reflexivity|]. split; [reflexivity|].
  destruct (download_queue_passes_cap cfg a b Fetcher.init (ProgressTracker.init 5 1)
              eq_refl eq_refl) as (ws' & f' & p' & Hrun & _ & Hdl & _).
  exists ws', f', p'. split; [exact Hrun|]. split; [exact Hdl|].
  split; [rewrite Hdl; reflexivity|].
  exists 2%nat, (ProgressTracker.init 5 1),
    (Fetcher.Enter 0 [a] :: Fetcher.Enter 1 [b] :: Fetcher.racing), ws', p'.
  exact Hrun.
Defined.

Lemma download_queue_within_scrape_queue_witness :
  let cfg := {| DATA_FOLDER := "data"; NUM_JOBS := 5; HTML_FILE_LIMIT := 1;
                MAX_RETRIES := 3; JOB_TITLES := ["Koch"; "Arzt"] |} in
  let a := "https://www.jobs.ch/en/vacancies/detail/a" in
  let b := "https://www.jobs.ch/en/vacancies/detail/b" in
  let f := snd (fst (Fetcher.interleave cfg
                       (Fetcher.Enter 0 [a] :: Fetcher.Enter 1 [b] :: Fetcher.racing)
                       (Fetcher.start 2 (ProgressTracker.init 5 1)))) in
  Fetcher.reachable cfg f /\
  Fetcher.download_queue f = [a; b] /\
  (length (Fetcher.download_queue f) <= length (Fetcher.job_queue f))%nat.
Proof.
  intros cfg a b f.
  assert (Hf : Fetcher.reachable cfg f).
  { exists 2%nat, (ProgressTracker.init 5 1),
      (Fetcher.Enter 0 [a] :: Fetcher.Enter 1 [b] :: Fetcher.racing).
    eexists _, _. reflexivity. }
  split; [exact Hf|]. split; [reflexivity|].
  destruct (download_queue_within_scrape_queue cfg f Hf) as (_ & Hlen & _). exact Hlen.
Defined.

(** C1 (the code does otherwise). With the repository's configuration
    ([MAX_RETRIES = 3]), on a network where only the first request times
    out, [fetch_page] returns [None] after that one request, without a
    backoff sleep; the same call made again is answered. *)
Theorem fetch_page_gives_up_after_first_failure :
  let url := "https://www.jobs.ch/en/vacancies/detail/1" in
  let r := Fetcher.fetch_page config flaky_net url fresh_world in
  fst r = None /\
  requests (snd r) = [url] /\
  sleeps (snd r) = [] /\
  log (snd r) = [(ERROR, "Request failed: Timeout for " +:+ url)] /\
  fst (Fetcher.fetch_page config flaky_net url (snd r)) = Some "<html>ok</html>".
Proof. vm_compute. repeat split. Qed.

Lemma get_total_pages_default_witness :
  let page := "<html><body>Jobs</body></html>" in
  let net := steady_net page in
  let soup := fun _ : string => inr [None; Some "var x = 1;"] in
  fst (Fetcher.fetch_page config net (Fetcher.first_page_url "Koch") fresh_world) = Some page /\
  Re.findall page = [] /\
  fst (Fetcher.get_total_pages config net soup "Koch" fresh_world) = 1.
Proof.
  split; [reflexivity|]. split; [reflexivity|].
  apply (get_total_pages_default config
           (steady_net "<html><body>Jobs</body></html>")
           (fun _ => inr [None; Some "var x = 1;"])
           "Koch" fresh_world "<html><body>Jobs</body></html>"
           [None; Some "var x = 1;"]);
    reflexivity.
Defined.


(** ** Scraper *)

Section ScraperFacts.
Import Scraper.

Variable cfg : Config.
Variable net : nat -> string -> Fetcher.outcome.
Variable parse : string -> Soup.
Variable repr : JobData -> string.

(** An address of [seen_jobs] is skipped: nothing is fetched, nothing
    changes but the log. *)
Lemma scrape_job_seen job_url s p w :
  job_url ∈ seen_jobs s ->
  scrape_job cfg net parse repr job_url s p w =
    (None, s, p, logging WARNING ("Skipping duplicate job: " +:+ job_url) w).
Proof. intros Hin. unfold scrape_job. now rewrite decide_True. Qed.

(** [scrape_job] never removes an address from [seen_jobs]. *)
Lemma scrape_job_seen_mono job_url s p w :
  seen_jobs s ⊆ seen_jobs (snd (fst (fst (scrape_job cfg net parse repr job_url s p w)))).
Proof.
  unfold scrape_job. destruct (decide (job_url ∈ seen_jobs s)); [done|].
  destruct (Fetcher.fetch_page cfg net job_url w) as [[[|c html]|] w1]; simpl; set_solver.
Qed.

(** C7. When the fetch of a detail page fails, [scrape_job] returns
    [None], leaves [scraped_jobs], [job_id] and the tracker as they
    were, and has the address in [seen_jobs]; in every later state,
    whose [seen_jobs] can only have grown, [scrape_job] on that address
    returns [None] at once, adding a log record and making no request. *)
Theorem failed_fetch_yields_no_record (job_url : string) (s : t)
    (p : ProgressTracker.t) (w : World) :
  fst (Fetcher.fetch_page cfg net job_url w) = None ->
  exists s1 w1,
    scrape_job cfg net parse repr job_url s p w = (None, s1, p, w1) /\
    scraped_jobs s1 = scraped_jobs s /\
    job_id s1 = job_id s /\
    job_url ∈ seen_jobs s1 /\
    forall s2 p2 w2,
      seen_jobs s1 ⊆ seen_jobs s2 ->
      scrape_job cfg net parse repr job_url s2 p2 w2 =
        (None, s2, p2, logging WARNING ("Skipping duplicate job: " +:+ job_url) w2).
Proof.
  intros Hfetch.
  assert (Hlater : forall s1, job_url ∈ seen_jobs s1 ->
            forall s2 p2 w2, seen_jobs s1 ⊆ seen_jobs s2 ->
              scrape_job cfg net parse repr job_url s2 p2 w2 =
                (None, s2, p2, logging WARNING ("Skipping duplicate job: " +:+ job_url) w2)).
  { intros s1 Hin s2 p2 w2 Hsub. apply scrape_job_seen. set_solver. }
  unfold scrape_job at 1. destruct (decide (job_url ∈ seen_jobs s)) as [Hin|Hnotin].
  - eexists _, _. split; [reflexivity|].
    split; [reflexivity|]. split; [reflexivity|]. split; [exact Hin|].
    now apply Hlater.
  - destruct (Fetcher.fetch_page cfg net job_url w) as [r w1]. simpl in Hfetch. subst r.
    eexists _, _. split; [reflexivity|]. simpl.
    split; [reflexivity|]. split; [reflexivity|].
    assert (Hin : job_url ∈ seen_jobs s ∪ {[job_url]}) by set_solver.
    split; [exact Hin|].
    intros s2 p2 w2 Hsub. apply scrape_job_seen. apply Hsub. exact Hin.
Qed.

End ScraperFacts.

Lemma failed_fetch_yields_no_record_witness :
  let job_url := "https://www.jobs.ch/en/vacancies/detail/1" in
  let p := ProgressTracker.init 1000 90 in
  fst (Fetcher.fetch_page config dead_net job_url fresh_world) = None /\
  exists s1 w1,
    Scraper.scrape_job config dead_net no_soup (fun _ => "{}")
      job_url Scraper.init p fresh_world = (None, s1, p, w1) /\
    Scraper.scraped_jobs s1 = [] /\ Scraper.job_id s1 = 1.
Proof.
  split; [reflexivity|].
  destruct (failed_fetch_yields_no_record config dead_net no_soup (fun _ => "{}")
              "https://www.jobs.ch/en/vacancies/detail/1" Scraper.init
              (ProgressTracker.init 1000 90) fresh_world eq_refl)
    as (s1 & w1 & Hrun & Hjobs & Hid & _).
  exists s1, w1. split; [exact Hrun|]. split; [exact Hjobs | exact Hid].
Defined.

(** ** DataSaver *)

Section DataSaverFacts.
Import DataSaver.

Variable cfg : Config.

(** A record whose address is in [seen_jobs] is dropped with a warning. *)
Lemma save_job_seen job_data d w :
  url job_data ∈ seen_jobs d ->
  save_job job_data d w =
    (d, logging WARNING ("Duplicate job skipped: " +:+ url job_data) w).
Proof. intros Hin. unfold save_job. now rewrite decide_True. Qed.

Lemma save_job_invariant job_data d w :
  queue_matches_seen d ->
  queue_matches_seen (fst (save_job job_data d w)) /\
  url job_data ∈ seen_jobs (fst (save_job job_data d w)) /\
  seen_jobs d ⊆ seen_jobs (fst (save_job job_data d w)).
Proof.
  unfold save_job, queue_matches_seen. intros [Hnodup Hiff].
  destruct (decide (url job_data ∈ seen_jobs d)) as [Hin|Hnotin]; simpl.
  - auto.
  - rewrite fmap_app. simpl. split; [split|split].
    + apply NoDup_app. split; [exact Hnodup|]. split.
      * intros u Hu Hu'. apply list_elem_of_singleton in Hu'. subst u.
        apply Hnotin, Hiff, Hu.
      * apply NoDup_singleton.
    + intros u. rewrite elem_of_union, elem_of_singleton, elem_of_app,
        list_elem_of_singleton, Hiff. tauto.
    + apply elem_of_union_r, elem_of_singleton. reflexivity.
    + apply union_subseteq_l.
Qed.

Lemma save_job_sinks job_data d w :
  csv_file (fst (save_job job_data d w)) = csv_file d /\
  json_file (fst (save_job job_data d w)) = json_file d /\
  db_table (fst (save_job job_data d w)) = db_table d.
Proof. unfold save_job. now destruct (decide (url job_data ∈ seen_jobs d)). Qed.

Lemma submit_invariant jobs :
  forall d w,
    queue_matches_seen d ->
    queue_matches_seen (fst (submit jobs d w)) /\
    (forall job, job ∈ jobs -> url job ∈ seen_jobs (fst (submit jobs d w))) /\
    seen_jobs d ⊆ seen_jobs (fst (submit jobs d w)) /\
    csv_file (fst (submit jobs d w)) = csv_file d /\
    json_file (fst (submit jobs d w)) = json_file d /\
    db_table (fst (submit jobs d w)) = db_table d.
Proof.
  induction jobs as [|job_data jobs IH]; intros d w Hinv; simpl.
  - split; [exact Hinv|]. split; [|now repeat split].
    intros job Hjob. now apply elem_of_nil in Hjob.
  - destruct (save_job_invariant job_data d w Hinv) as (Hinv1 & Hin1 & Hsub1).
    destruct (save_job_sinks job_data d w) as (Hcsv1 & Hjson1 & Hdb1).
    destruct (save_job job_data d w) as [d1 w1]. simpl in *.
    destruct (IH d1 w1 Hinv1) as (Hinv2 & Hin2 & Hsub2 & Hcsv2 & Hjson2 & Hdb2).
    split; [exact Hinv2|]. split; [|split; [|split; [|split]]]; try congruence.
    + intros job Hjob. apply elem_of_cons in Hjob as [->|Hjob]; [|now apply Hin2].
      apply Hsub2, Hin1.
    + etransitivity; eassumption.
Qed.

(** In a queue without two records of one address, an address that
    occurs has exactly one record. *)
Lemma one_record_per_address (q : list JobData) (u : string) :
  NoDup (url <$> q) -> u ∈ url <$> q ->
  length (filter (fun r => url r = u) q) = 1%nat.
Proof.
  induction q as [|job q IH]; simpl; intros Hnodup Hin.
  - now apply elem_of_nil in Hin.
  - apply NoDup_cons in Hnodup as [Hnotin Hnodup].
    destruct (decide (url job = u)) as [Heq|Hne].
    + rewrite filter_cons_True by exact Heq. simpl. f_equal.
      assert (Hnone : filter (fun r => url r = u) q = []).
      { clear -Hnotin Heq. induction q as [|job' q IH]; [reflexivity|].
        rewrite fmap_cons, not_elem_of_cons in Hnotin. destruct Hnotin as [Hne Hnotin].
        rewrite filter_cons_False by congruence. now apply IH. }
      now rewrite Hnone.
    + rewrite filter_cons_False by exact Hne.
      apply elem_of_cons in Hin as [Heq|Hin]; [congruence|]. now apply IH.
Qed.

Lemma csv_rows_app l1 l2 : csv_rows (l1 ++ l2) = csv_rows l1 ++ csv_rows l2.
Proof. unfold csv_rows. apply flat_map_app. Qed.

Lemma csv_rows_Row job_list : csv_rows (map Row job_list) = job_list.
Proof. induction job_list as [|job l IH]; simpl; [reflexivity|]. now f_equal. Qed.

(** One flush appends the batch to each of the three sinks. *)
Lemma batch_save_jobs_sinks batch d w :
  json_file (fst (batch_save_jobs cfg batch d w)) = json_file d ++ batch /\
  csv_rows (csv_file (fst (batch_save_jobs cfg batch d w))) =
    csv_rows (csv_file d) ++ batch /\
  db_table (fst (batch_save_jobs cfg batch d w)) = db_table d ++ map db_row batch.
Proof.
  destruct batch as [|job batch]; simpl.
  - now rewrite !app_nil_r.
  - repeat split.
    rewrite !csv_rows_app. simpl. rewrite csv_rows_Row.
    now destruct (csv_file d).
Qed.

(** The background thread, given the whole queue and then one idle
    timeout, has flushed every record, in order, and holds none back. *)
Lemma process_queue_drained q :
  forall batch d w,
  exists b d' w',
    process_queue cfg (map Got q ++ [Empty true]) batch d w = (b, [], d', w') /\
    json_file d' = json_file d ++ batch ++ q /\
    csv_rows (csv_file d') = csv_rows (csv_file d) ++ batch ++ q /\
    db_table d' = db_table d ++ map db_row (batch ++ q).
Proof.
  induction q as [|job q IH]; intros batch d w.
  - cbn [map app process_queue]. rewrite !app_nil_r.
    destruct batch as [|j batch].
    + exists false, d, w. now rewrite !app_nil_r.
    + destruct (batch_save_jobs_sinks (j :: batch) d w) as (Hjson & Hcsv & Hdb).
      destruct (batch_save_jobs cfg (j :: batch) d w) as [d1 w1]. simpl in Hjson, Hcsv, Hdb.
      eexists _, _, _. split; [reflexivity|]. auto.
  - cbn [map app process_queue].
    destruct (batch_size <=? Z.of_nat (length (batch ++ [job]))).
    + destruct (batch_save_jobs_sinks (batch ++ [job]) d w) as (Hjson & Hcsv & Hdb).
      destruct (batch_save_jobs cfg (batch ++ [job]) d w) as [d1 w1].
      simpl in Hjson, Hcsv, Hdb.
      destruct (IH [] d1 w1) as (b & d' & w' & Hrun & Hjson' & Hcsv' & Hdb').
      exists b, d', w'. split; [exact Hrun|].
      rewrite Hjson', Hcsv', Hdb', Hjson, Hcsv, Hdb. simpl.
      rewrite !map_app, <- !app_assoc. simpl. auto.
    + destruct (IH (batch ++ [job]) d w) as (b & d' & w' & Hrun & Hjson' & Hcsv' & Hdb').
      exists b, d', w'. split; [exact Hrun|].
      rewrite Hjson', Hcsv', Hdb', <- !app_assoc. simpl. auto.
Qed.

(** C5. After any submissions through [save_job] to a new [DataSaver]
    that include a record, the Save Queue holds exactly one record of
    its address; one more submission of that address leaves the
    [DataSaver] as it is and only logs a warning; and the background
    thread, once it has drained the queue, has appended the queue, so one
    entry of that address, to each of the three sinks. *)
Theorem replayed_record_saved_once (jobs : list JobData) (job replay : JobData)
    (csv : list csv_line) (json : list JobData) (db : list (list string)) (w : World) :
  job ∈ jobs ->
  url replay = url job ->
  exists d w1,
    submit jobs (init csv json db) w = (d, w1) /\
    length (filter (fun r => url r = url job) (job_queue d)) = 1%nat /\
    save_job replay d w1 =
      (d, logging WARNING ("Duplicate job skipped: " +:+ url job) w1) /\
    exists b dp wp,
      drain cfg d w1 = (b, [], dp, wp) /\
      json_file dp = json ++ job_queue d /\
      csv_rows (csv_file dp) = csv_rows csv ++ job_queue d /\
      db_table dp = db ++ map db_row (job_queue d).
Proof.
  intros Hjob Hurl.
  assert (Hinit : queue_matches_seen (init csv json db)).
  { split; simpl; [apply NoDup_nil_2 | intros u; set_solver]. }
  destruct (submit_invariant jobs (init csv json db) w Hinit)
    as ([Hnodup Hiff] & Hin & _ & Hcsv & Hjson & Hdb).
  destruct (submit jobs (init csv json db) w) as [d w1]. simpl in *.
  exists d, w1. split; [reflexivity|]. split; [|split].
  - apply one_record_per_address; [exact Hnodup|]. apply Hiff, Hin, Hjob.
  - rewrite <- Hurl. apply save_job_seen. rewrite Hurl. now apply Hin.
  - unfold drain.
    destruct (process_queue_drained (job_queue d) []
                {| job_queue := []; seen_jobs := seen_jobs d; csv_file := csv_file d;
                   json_file := json_file d; db_table := db_table d |} w1)
      as (b & dp & wp & Hrun & Hjson' & Hcsv' & Hdb').
    exists b, dp, wp. split; [exact Hrun|]. simpl in Hjson', Hcsv', Hdb'.
    rewrite Hjson', Hcsv', Hdb', Hjson, Hcsv, Hdb. simpl. auto.
Qed.

End DataSaverFacts.

Lemma replayed_record_saved_once_witness :
  let a := {| id := 1; url := "https://www.jobs.ch/en/vacancies/detail/a"; title := "Koch";
              publication_date := "N/A"; workload := "100%"; contract_type := "N/A";
              salary := "N/A"; languages := "N/A"; place_of_work := "Bern" |} in
  let b := {| id := 2; url := "https://www.jobs.ch/en/vacancies/detail/b"; title := "Arzt";
              publication_date := "N/A"; workload := "80%"; contract_type := "N/A";
              salary := "N/A"; languages := "N/A"; place_of_work := "Biel" |} in
  a ∈ [a; b; a] /\ url a = url a /\
  exists d w1,
    DataSaver.submit [a; b; a] (DataSaver.init [] [] []) fresh_world = (d, w1) /\
    length (filter (fun r => url r = url a) (DataSaver.job_queue d)) = 1%nat.
Proof.
  intros a b.
  assert (Ha : a ∈ [a; b; a]) by apply list_elem_of_here.
  split; [exact Ha|]. split; [reflexivity|].
  destruct (replayed_record_saved_once config [a; b; a] a a [] [] [] fresh_world Ha eq_refl)
    as (d & w1 & Hrun & Hone & _).
  exists d, w1. split; [exact Hrun | exact Hone].
Defined.

(** ** Downloader *)

Section DownloaderFacts.
Import Downloader.

Variable cfg : Config.
Variable net : nat -> string -> Fetcher.outcome.

Lemma string_length_append (s t : string) :
  String.length (s +:+ t) = (String.length s + String.length t)%nat.
Proof. induction s as [|c s IH]; simpl; [reflexivity|]. now rewrite IH. Qed.

Lemma string_append_inj_r (s1 s2 t : string) : s1 +:+ t = s2 +:+ t -> s1 = s2.
Proof.
  revert s2. induction s1 as [|c1 s1 IH]; intros [|c2 s2] H; simpl in H.
  - reflexivity.
  - apply (f_equal String.length) in H. simpl in H.
    rewrite ?string_length_append in H. simpl in H. lia.
  - apply (f_equal String.length) in H. simpl in H.
    rewrite ?string_length_append in H. simpl in H. lia.
  - injection H as -> H. f_equal. now apply IH.
Qed.

(** Two file indices never share a file name. *)
Lemma html_name_inj i j : html_name i = html_name j -> i = j.
Proof.
  unfold html_name. intros H. apply (inj (String.append "job_")) in H.
  apply string_append_inj_r in H. now apply (inj pretty) in H.
Qed.

Lemma elem_of_html_names x n :
  x ∈ html_names n <-> exists i, 1 <= i <= n /\ x = html_name i.
Proof.
  unfold html_names, Fetcher.range.
  rewrite elem_of_list_to_set, list_elem_of_fmap.
  split; intros (i & H1 & H2).
  - apply elem_of_seqZ in H2. exists i. split; [lia | exact H1].
  - exists i. split; [exact H2|]. apply elem_of_seqZ. lia.
Qed.

Lemma size_html_names n : size (html_names n) = Z.to_nat n.
Proof.
  unfold html_names, Fetcher.range. rewrite size_list_to_set.
  - rewrite length_fmap, length_seqZ. f_equal. lia.
  - apply NoDup_fmap_2_strong; [|apply NoDup_seqZ].
    intros i j _ _. apply html_name_inj.
Qed.

(** [fetch_page] touches neither the raw-page directory nor the archive. *)
Lemma fetch_page_files url w :
  html_folder (snd (Fetcher.fetch_page cfg net url w)) = html_folder w /\
  zip_file (snd (Fetcher.fetch_page cfg net url w)) = zip_file w.
Proof.
  unfold Fetcher.fetch_page.
  destruct (Z.to_nat (MAX_RETRIES cfg)) as [|fuel]; simpl;
    destruct (0 <? MAX_RETRIES cfg); simpl; auto.
  unfold Fetcher.try_request, Fetcher.request.
  destruct (net (length (requests w)) url) as [status text|e].
  - now destruct ((400 <=? status) && (status <? 600)).
  - now destruct e.
Qed.

(** The number of saved pages only grows. *)
Lemma download_loop_mono q :
  forall unfinished d p w q' u' d' p' w',
    download_loop cfg net q unfinished d p w = (q', u', d', p', w') ->
    num_html_saved d <= num_html_saved d'.
Proof.
  induction q as [|job_url q IH]; intros unfinished d p w q' u' d' p' w' H;
    cbn [download_loop] in H.
  - inversion H; subst. lia.
  - destruct (negb (String.prefix "https" job_url)); [eauto|].
    destruct (Fetcher.fetch_page cfg net job_url w) as [[[|c html]|] w1]; eauto.
    destruct (HTML_FILE_LIMIT cfg <=? num_html_saved d).
    + inversion H; subst. lia.
    + apply IH in H. simpl in H. lia.
Qed.

(** The files [job_1.html] ... [job_n.html] of the [n] pages saved so far
    are in the directory, given that this held at the start. *)
Lemma download_loop_saved_files q :
  forall unfinished d p w q' u' d' p' w',
    download_loop cfg net q unfinished d p w = (q', u', d', p', w') ->
    0 <= num_html_saved d ->
    html_names (num_html_saved d) ⊆ dom (html_folder w) ->
    html_names (num_html_saved d') ⊆ dom (html_folder w').
Proof.
  induction q as [|job_url q IH]; intros unfinished d p w q' u' d' p' w' H Hnum Hlo;
    cbn [download_loop] in H.
  - inversion H; subst. exact Hlo.
  - destruct (negb (String.prefix "https" job_url)); [eapply IH; eauto|].
    destruct (fetch_page_files job_url w) as [Hfolder _].
    destruct (Fetcher.fetch_page cfg net job_url w) as [r w1]. simpl in Hfolder.
    rewrite <- Hfolder in Hlo.
    destruct r as [[|c html]|]; try (eapply IH; eauto; fail).
    destruct (HTML_FILE_LIMIT cfg <=? num_html_saved d).
    + inversion H; subst. exact Hlo.
    + eapply IH; [exact H | simpl; lia |]. simpl. rewrite dom_insert_L.
      intros x Hx. apply elem_of_html_names in Hx as (i & Hi & ->).
      destruct (decide (i = num_html_saved d + 1)) as [->|Hne].
      * apply elem_of_union_l, elem_of_singleton. reflexivity.
      * apply elem_of_union_r, Hlo, elem_of_html_names. exists i. split; [lia | reflexivity].
Qed.

(** No file appears in the directory besides those up to the cap, given
    that there was none at the start. *)
Lemma download_loop_no_other_file q :
  forall unfinished d p w q' u' d' p' w',
    download_loop cfg net q unfinished d p w = (q', u', d', p', w') ->
    0 <= num_html_saved d ->
    dom (html_folder w) ⊆ html_names (HTML_FILE_LIMIT cfg) ->
    dom (html_folder w') ⊆ html_names (HTML_FILE_LIMIT cfg).
Proof.
  induction q as [|job_url q IH]; intros unfinished d p w q' u' d' p' w' H Hnum Hhi;
    cbn [download_loop] in H.
  - inversion H; subst. exact Hhi.
  - destruct (negb (String.prefix "https" job_url)); [eapply IH; eauto|].
    destruct (fetch_page_files job_url w) as [Hfolder _].
    destruct (Fetcher.fetch_page cfg net job_url w) as [r w1]. simpl in Hfolder.
    rewrite <- Hfolder in Hhi.
    destruct r as [[|c html]|]; try (eapply IH; eauto; fail).
    destruct (Z.leb_spec (HTML_FILE_LIMIT cfg) (num_html_saved d)).
    + inversion H; subst. exact Hhi.
    + eapply IH; [exact H | simpl; lia |]. simpl. rewrite dom_insert_L.
      intros x Hx. apply elem_of_union in Hx as [Hx|Hx]; [|now apply Hhi].
      apply elem_of_singleton in Hx. subst x.
      apply elem_of_html_names. exists (num_html_saved d + 1). split; [lia | reflexivity].
Qed.

(** What [download_jobs] leaves when it returns: the count and the
    directory are those of its loop. *)
Lemma download_jobs_saved_files download_queue p w0 q' d p1 w :
  download_jobs cfg net download_queue init p w0 = Some (q', d, p1, w) ->
  0 <= num_html_saved d /\
  html_names (num_html_saved d) ⊆ dom (html_folder w) /\
  (dom (html_folder w0) ⊆ html_names (HTML_FILE_LIMIT cfg) ->
   dom (html_folder w) ⊆ html_names (HTML_FILE_LIMIT cfg)).
Proof.
  intros Hrun.
  assert (Hnone : html_names 0 ⊆ dom (html_folder w0)).
  { intros x Hx. apply elem_of_html_names in Hx as (i & Hi & _). lia. }
  unfold download_jobs in Hrun. destruct download_queue as [|job_url queue].
  - inversion Hrun; subst. simpl. split; [lia|]. split; [exact Hnone | auto].
  - destruct (download_loop cfg net (job_url :: queue) (length (job_url :: queue))
                init p (logging INFO "Starting downloading process..." w0))
      as [[[[q1 u1] d1] p2] w1] eqn:Hloop.
    destruct u1; [|discriminate]. inversion Hrun; subst. simpl.
    pose proof (download_loop_mono _ _ _ _ _ _ _ _ _ _ Hloop) as Hmono.
    simpl in Hmono. split; [exact Hmono|]. split.
    + eapply download_loop_saved_files; [exact Hloop | simpl; lia | exact Hnone].
    + intros Hdir.
      eapply download_loop_no_other_file; [exact Hloop | simpl; lia | exact Hdir].
Qed.

(** Writing the log records of the archive entries leaves the files. *)
Lemma fold_logging_files (entries : list (string * string)) :
  forall w,
    zip_file (fold_left (fun w e => logging INFO ("Added " +:+ fst e +:+ " to zip") w)
                entries w) = zip_file w.
Proof. induction entries as [|e entries IH]; intros w; simpl; [reflexivity|]. now rewrite IH. Qed.

(** C8, amended. Below the cap [zip_html_files] only writes a log record: no
    archive is created or changed. When a run of [download_jobs] that
    started from a new [Downloader] has saved exactly [HTML_FILE_LIMIT]
    pages, the archive written by [zip_html_files] has one entry per file
    of the directory, the files [job_1.html] ... [job_cap.html] among
    them; and when the directory held no file other than these before
    the run, the archive has [HTML_FILE_LIMIT] entries, which are these
    files. *)
Theorem zip_html_files_at_cap (download_queue q' : list string) (d : t)
    (p p1 : ProgressTracker.t) (w0 w : World) :
  (forall d0 w', num_html_saved d0 < HTML_FILE_LIMIT cfg ->
     zip_html_files cfg d0 w' = logging INFO "Not enough HTML files to zip yet." w') /\
  (download_jobs cfg net download_queue init p w0 = Some (q', d, p1, w) ->
   num_html_saved d = HTML_FILE_LIMIT cfg ->
   exists entries,
     zip_file (zip_html_files cfg d w) = Some entries /\
     entries = map_to_list (html_folder w) /\
     html_names (HTML_FILE_LIMIT cfg) ⊆ list_to_set (fst <$> entries) /\
     (dom (html_folder w0) ⊆ html_names (HTML_FILE_LIMIT cfg) ->
      length entries = Z.to_nat (HTML_FILE_LIMIT cfg) /\
      list_to_set (fst <$> entries) = html_names (HTML_FILE_LIMIT cfg))).
Proof.
  split.
  - intros d0 w' Hlt. unfold zip_html_files.
    destruct (Z.ltb_spec (num_html_saved d0) (HTML_FILE_LIMIT cfg)); [reflexivity | lia].
  - intros Hrun Hcap.
    destruct (download_jobs_saved_files _ _ _ _ _ _ _ Hrun) as (Hpos & Hlo & Hhi).
    rewrite Hcap in Hlo.
    assert (Hnames : list_to_set (fst <$> map_to_list (html_folder w)) =
                     dom (html_folder w) :> gset string).
    { symmetry. apply leibniz_equiv, dom_alt. }
    exists (map_to_list (html_folder w)).
    split; [|split; [reflexivity|split]].
    + unfold zip_html_files.
      destruct (Z.ltb_spec (num_html_saved d) (HTML_FILE_LIMIT cfg)); [lia|].
      simpl. now rewrite fold_logging_files.
    + rewrite Hnames. exact Hlo.
    + intros Hdir.
      assert (Hdom : dom (html_folder w) = html_names (HTML_FILE_LIMIT cfg)).
      { apply set_eq. intros x. split; [apply Hhi, Hdir | apply Hlo]. }
      split.
      * rewrite length_map_to_list, <- (size_dom (D:=gset string)), Hdom.
        apply size_html_names.
      * now rewrite Hnames.
Qed.

End DownloaderFacts.

Lemma zip_html_files_at_cap_witness :
  let cfg := {| DATA_FOLDER := "data"; NUM_JOBS := 5; HTML_FILE_LIMIT := 2;
                MAX_RETRIES := 3; JOB_TITLES := ["Koch"] |} in
  let net := steady_net "<html>job</html>" in
  let queue := ["https://www.jobs.ch/en/vacancies/detail/a";
                "https://www.jobs.ch/en/vacancies/detail/b"] in
  let p := ProgressTracker.init 5 2 in
  dom (html_folder fresh_world) ⊆ Downloader.html_names (HTML_FILE_LIMIT cfg) /\
  exists q' d p1 w,
    Downloader.download_jobs cfg net queue Downloader.init p fresh_world =
      Some (q', d, p1, w) /\
    Downloader.num_html_saved d = HTML_FILE_LIMIT cfg /\
    exists entries,
      zip_file (Downloader.zip_html_files cfg d w) = Some entries /\
      length entries = 2%nat.
Proof.
  intros cfg net queue p.
  assert (Hdir : dom (html_folder fresh_world) ⊆ Downloader.html_names (HTML_FILE_LIMIT cfg)).
  { simpl. rewrite dom_empty_L. apply empty_subseteq. }
  split; [exact Hdir|].
  destruct (Downloader.download_jobs cfg net queue Downloader.init p fresh_world)
    as [[[[q' d] p1] w]|] eqn:Hrun.
  2: { vm_compute in Hrun. discriminate. }
  assert (Hcap : Downloader.num_html_saved d = HTML_FILE_LIMIT cfg).
  { vm_compute in Hrun. injection Hrun as H1 H2 H3 H4. subst. reflexivity. }
  destruct (proj2 (zip_html_files_at_cap cfg net queue q' d p p1 fresh_world w)
              Hrun Hcap) as (entries & Hzip & _ & _ & Hfresh).
  destruct (Hfresh Hdir) as [Hlen _].
  exists q', d, p1, w. split; [reflexivity|]. split; [exact Hcap|].
  exists entries. split; [exact Hzip | exact Hlen].
Defined.

(** C8, the claim as it is written: with a cap of 2 and a directory that
    an earlier run left [job_3.html] in, a run that saves exactly two
    pages is followed by an archive of three entries. [zip_html_files]
    packs every file that [os.walk] finds. *)
Lemma zip_html_files_packs_stale_file :
  let cfg := {| DATA_FOLDER := "data"; NUM_JOBS := 5; HTML_FILE_LIMIT := 2;
                MAX_RETRIES := 3; JOB_TITLES := ["Koch"] |} in
  let net := steady_net "<html>job</html>" in
  let queue := ["https://www.jobs.ch/en/vacancies/detail/a";
                "https://www.jobs.ch/en/vacancies/detail/b"] in
  let p := ProgressTracker.init 5 2 in
  let w0 := write_html "job_3.html" "<html>old</html>" fresh_world in
  exists q' d p1 w entries,
    Downloader.download_jobs cfg net queue Downloader.init p w0 = Some (q', d, p1, w) /\
    Downloader.num_html_saved d = HTML_FILE_LIMIT cfg /\
    zip_file (Downloader.zip_html_files cfg d w) = Some entries /\
    length entries = 3%nat /\
    Z.of_nat (length entries) <> HTML_FILE_LIMIT cfg.
Proof.
  intros cfg net queue p w0.
  destruct (Downloader.download_jobs cfg net queue Downloader.init p w0)
    as [[[[q' d] p1] w]|] eqn:Hrun.
  2: { vm_compute in Hrun. discriminate. }
  exists q', d, p1, w.
  vm_compute in Hrun. injection Hrun as <- <- <- <-.
  eexists. split; [reflexivity|]. split; [reflexivity|].
  split; [vm_compute; reflexivity|]. split; [reflexivity | discriminate].
Qed.

(** * Further properties of the code *)

(** ** ProgressTracker: flags and counts *)

Section ProgressTrackerCounts.
Import ProgressTracker.

Ltac tracker_cases :=
  repeat (match goal with
          | |- context [?a <? ?b] => destruct (Z.ltb_spec a b)
          | |- context [?a =? ?b] => destruct (Z.eqb_spec a b)
          end; simpl).

Lemma apply_call_flags_ok c p : flags_ok p -> flags_ok (apply_call c p).
Proof.
  destruct p as [tj hl nf ns nd fd sd dd].
  destruct c; unfold flags_ok, apply_call, update_fetch, update_scrape, update_download;
    simpl; intros [H1 H2]; destruct fd, sd; simpl in *; tracker_cases;
    split; intros; repeat split; try congruence; try lia;
    try (destruct H2 as [? ?]; [reflexivity|congruence || lia]);
    try (specialize (H1 eq_refl); lia).
Qed.

Lemma states_after_flags_ok calls :
  forall p, flags_ok p -> Forall flags_ok (states_after calls p).
Proof.
  induction calls as [|c calls IH]; intros p Hp; simpl; constructor.
  - now apply apply_call_flags_ok.
  - apply IH. now apply apply_call_flags_ok.
Qed.

(** X1. After each call of any sequence of calls on a new tracker, a set
    [fetching_done] means [fetched = total_jobs], and a set
    [scraping_done] means that [fetching_done] is set too and
    [scraped = total_jobs]. *)
Theorem flags_follow_counters (total limit : Z) (calls : list call) :
  Forall flags_ok (states_after calls (init total limit)).
Proof.
  apply states_after_flags_ok. split; simpl; intros H; discriminate.
Qed.

Lemma count_call_cons c c' calls :
  count_call c (c' :: calls) = (if is_call c c' then 1 else 0) + count_call c calls.
Proof.
  unfold count_call. simpl. destruct (is_call c c'); simpl; lia.
Qed.

Lemma count_call_nonneg c calls : 0 <= count_call c calls.
Proof. unfold count_call. lia. Qed.

Lemma run_cons c calls p : run (c :: calls) p = run calls (apply_call c p).
Proof. reflexivity. Qed.

Lemma run_ceilings calls :
  forall p, total_jobs (run calls p) = total_jobs p /\
            html_file_limit (run calls p) = html_file_limit p.
Proof.
  induction calls as [|c calls IH]; intros p; [now split|].
  rewrite run_cons. destruct (IH (apply_call c p)) as [Ht Hl]. rewrite Ht, Hl.
  destruct c; unfold apply_call, update_fetch, update_scrape, update_download;
    repeat match goal with |- context [if ?b then _ else _] => destruct b end; now split.
Qed.

Lemma run_fetched calls :
  forall p, fetched p <= total_jobs p ->
    fetched (run calls p) = Z.min (fetched p + count_call UpdateFetch calls) (total_jobs p).
Proof.
  induction calls as [|c calls IH]; intros p Hp.
  - unfold count_call. simpl. lia.
  - rewrite run_cons, count_call_cons.
    destruct c; simpl is_call; cbv iota.
    + unfold apply_call at 1. rewrite IH.
      * unfold update_fetch. destruct p as [tj hl nf ns nd fd sd dd]; simpl in *.
        pose proof (count_call_nonneg UpdateFetch calls).
        tracker_cases; destruct fd; simpl; lia.
      * unfold update_fetch. destruct p as [tj hl nf ns nd fd sd dd]; simpl in *.
        tracker_cases; destruct fd; simpl; lia.
    + unfold apply_call at 1. rewrite IH.
      * unfold update_scrape. destruct p as [tj hl nf ns nd fd sd dd]; simpl in *.
        destruct fd, sd; simpl; tracker_cases; lia.
      * unfold update_scrape. destruct p as [tj hl nf ns nd fd sd dd]; simpl in *.
        destruct fd, sd; simpl; tracker_cases; lia.
    + unfold apply_call at 1. rewrite IH.
      * unfold update_download. destruct p as [tj hl nf ns nd fd sd dd]; simpl in *.
        tracker_cases; lia.
      * unfold update_download. destruct p as [tj hl nf ns nd fd sd dd]; simpl in *.
        tracker_cases; lia.
Qed.

Lemma run_downloaded calls :
  forall p, downloaded p <= html_file_limit p ->
    downloaded (run calls p) =
      Z.min (downloaded p + count_call UpdateDownload calls) (html_file_limit p).
Proof.
  induction calls as [|c calls IH]; intros p Hp.
  - unfold count_call. simpl. lia.
  - rewrite run_cons, count_call_cons.
    destruct c; simpl is_call; cbv iota; unfold apply_call at 1; rewrite IH;
      unfold update_fetch, update_scrape, update_download;
      destruct p as [tj hl nf ns nd fd sd dd]; simpl in *;
      pose proof (count_call_nonneg UpdateDownload calls);
      destruct fd, sd; simpl; tracker_cases; lia.
Qed.

(** X2. On a tracker created for a non-negative job target and archive
    cap, whatever calls are made in whatever order, [fetched] is the
    number of [update_fetch] calls capped at [total_jobs], and
    [downloaded] is the number of [update_download] calls capped at
    [html_file_limit]. *)
Theorem counters_count_calls (total limit : Z) (calls : list call) :
  0 <= total -> 0 <= limit ->
  fetched (run calls (init total limit)) = Z.min (count_call UpdateFetch calls) total /\
  downloaded (run calls (init total limit)) = Z.min (count_call UpdateDownload calls) limit.
Proof.
  intros Ht Hl. split.
  - now rewrite run_fetched.
  - now rewrite run_downloaded.
Qed.

Lemma run_before_target calls :
  forall p,
    fetching_done p = false ->
    fetched p + count_call UpdateFetch calls < total_jobs p ->
    scraped (run calls p) = scraped p /\ fetching_done (run calls p) = false.
Proof.
  induction calls as [|c calls IH]; intros p Hdone Hcount; [now split|].
  rewrite run_cons. rewrite count_call_cons in Hcount.
  pose proof (count_call_nonneg UpdateFetch calls) as Hpos.
  assert (Hstep : fetching_done (apply_call c p) = false /\
                  scraped (apply_call c p) = scraped p /\
                  total_jobs (apply_call c p) = total_jobs p /\
                  fetched (apply_call c p) + count_call UpdateFetch calls < total_jobs p).
  { destruct p as [tj hl nf ns nd fd sd dd]. simpl in *. subst fd.
    destruct c; simpl in *; unfold update_fetch, update_scrape, update_download; simpl;
      tracker_cases; repeat split; try lia. }
  destruct Hstep as (Hd & Hs & Ht & Hc).
  destruct (IH (apply_call c p) Hd) as [Hs' Hd']; [now rewrite Ht|].
  split; [now rewrite Hs', Hs | exact Hd'].
Qed.

(** X3. While fewer [update_fetch] calls were made than [total_jobs],
    [fetching_done] stays false and [scraped] stays 0, however many
    [update_scrape] calls are made: the display counts no scraped job
    before the job target is reached. *)
Theorem scraped_waits_for_target (total limit : Z) (calls : list call) :
  count_call UpdateFetch calls < total ->
  scraped (run calls (init total limit)) = 0 /\
  fetching_done (run calls (init total limit)) = false.
Proof.
  intros Hcount. now apply (run_before_target calls (init total limit)).
Qed.

End ProgressTrackerCounts.

Lemma counters_count_calls_witness :
  let calls := [ProgressTracker.UpdateFetch; ProgressTracker.UpdateDownload;
                ProgressTracker.UpdateFetch; ProgressTracker.UpdateScrape;
                ProgressTracker.UpdateFetch; ProgressTracker.UpdateDownload] in
  0 <= 2 /\ 0 <= 1 /\
  ProgressTracker.fetched (ProgressTracker.run calls (ProgressTracker.init 2 1)) = 2 /\
  ProgressTracker.downloaded (ProgressTracker.run calls (ProgressTracker.init 2 1)) = 1.
Proof.
  intros calls. split; [lia|]. split; [lia|].
  destruct (counters_count_calls 2 1 calls ltac:(lia) ltac:(lia)) as [Hf Hd].
  split; [exact Hf | exact Hd].
Defined.

Lemma scraped_waits_for_target_witness :
  let calls := [ProgressTracker.UpdateFetch; ProgressTracker.UpdateScrape;
                ProgressTracker.UpdateFetch; ProgressTracker.UpdateScrape] in
  ProgressTracker.count_call ProgressTracker.UpdateFetch calls < 3 /\
  ProgressTracker.scraped (ProgressTracker.run calls (ProgressTracker.init 3 1)) = 0.
Proof.
  intros calls. split; [reflexivity|].
  apply (scraped_waits_for_target 3 1 calls). reflexivity.
Defined.

(** ** The page count: regex, fallback and result *)

Section PageCountFacts.
Import Fetcher.

Variable cfg : Config.
Variable net : nat -> string -> outcome.
Variable find_all_script : string -> string + list (option string).

Lemma literal_prefix lit :
  forall s r, Re.literal lit s = Some r -> String.prefix lit s = true.
Proof.
  induction lit as [|a lit IH]; intros [|b s] r H; simpl in *; try reflexivity;
    try discriminate.
  destruct (Ascii.eqb a b) eqn:E; [|discriminate].
  apply Ascii.eqb_eq in E. subst b.
  destruct (ascii_dec a a) as [_|Hne]; [eauto | congruence].
Qed.

Lemma match_here_contains s d r :
  Re.match_here s = Some (d, r) -> Re.contains Re.meta_key s = true.
Proof.
  unfold Re.match_here. intros H.
  destruct (Re.literal Re.meta_key s) as [s1|] eqn:Hlit; [|discriminate].
  apply literal_prefix in Hlit.
  destruct s; cbn [Re.contains]; now rewrite Hlit.
Qed.

Lemma search_contains s :
  forall d, Re.search s = Some d -> Re.contains Re.meta_key s = true.
Proof.
  induction s as [|c s IH]; intros d H; cbn [Re.search] in H.
  - destruct (Re.match_here EmptyString) as [[d' r]|] eqn:Hm; [|discriminate].
    now apply match_here_contains in Hm.
  - destruct (Re.match_here (String c s)) as [[d' r]|] eqn:Hm.
    + now apply match_here_contains in Hm.
    + cbn [Re.contains]. destruct (String.prefix Re.meta_key (String c s)); [reflexivity|].
      eapply IH, H.
Qed.

(** X4. The scan over the script tags returns the group of the first
    script whose string the regex matches: the test [in script.string]
    for the key never changes the result. *)
Theorem scan_scripts_first_match (scripts : list (option string)) :
  scan_scripts scripts = head (omap (fun script => script ≫= Re.search) scripts).
Proof.
  induction scripts as [|script scripts IH]; [reflexivity|].
  destruct script as [[|c s]|]; cbn [scan_scripts omap list_omap mbind option_bind].
  - change (Re.search EmptyString) with (@None string). exact IH.
  - destruct (Re.search (String c s)) as [d|] eqn:Hs.
    + now rewrite (search_contains _ _ Hs).
    + destruct (Re.contains Re.meta_key (String c s)); exact IH.
  - exact IH.
Qed.

Lemma isdigit_code c : Re.isdigit c = true -> 0 <= Z.of_N (N_of_ascii c) - 48.
Proof.
  unfold Re.isdigit. intros H. apply andb_true_iff in H as [H _].
  apply N.leb_le in H. lia.
Qed.

Lemma digits_int_nonneg s :
  forall acc, 0 <= acc -> 0 <= Re.int_from acc (fst (Re.digits s)).
Proof.
  induction s as [|c s IH]; intros acc Hacc; simpl; [exact Hacc|].
  destruct (Re.isdigit c) eqn:Hc; [|exact Hacc].
  specialize (IH (10 * acc + (Z.of_N (N_of_ascii c) - 48))).
  destruct (Re.digits s) as [d rest]. simpl in *. apply IH.
  apply isdigit_code in Hc. lia.
Qed.

Lemma match_here_nonneg s d r : Re.match_here s = Some (d, r) -> 0 <= Re.int_from 0 d.
Proof.
  unfold Re.match_here. intros H.
  destruct (Re.literal Re.meta_key s) as [s1|]; [|discriminate].
  destruct (Re.literal "{" (Re.skip_spaces s1)) as [s2|]; [|discriminate].
  destruct (Re.literal Re.numPages_key (Re.skip_spaces s2)) as [s3|]; [|discriminate].
  pose proof (digits_int_nonneg (Re.skip_spaces s3) 0 ltac:(lia)) as Hd.
  destruct (Re.digits (Re.skip_spaces s3)) as [d' rest].
  destruct d'; [discriminate|]. inversion H; subst. exact Hd.
Qed.

Lemma search_nonneg s : forall d, Re.search s = Some d -> 0 <= Re.int_from 0 d.
Proof.
  induction s as [|c s IH]; intros d H; cbn [Re.search] in H.
  - destruct (Re.match_here EmptyString) as [[d' r]|] eqn:Hm; [|discriminate].
    inversion H; subst. eapply match_here_nonneg, Hm.
  - destruct (Re.match_here (String c s)) as [[d' r]|] eqn:Hm.
    + inversion H; subst. eapply match_here_nonneg, Hm.
    + now apply IH.
Qed.

Lemma findall_from_nonneg fuel :
  forall s, Forall (fun d => 0 <= Re.int_from 0 d) (Re.findall_from fuel s).
Proof.
  induction fuel as [|fuel IH]; intros s; cbn [Re.findall_from]; [constructor|].
  destruct (Re.match_here s) as [[d r]|] eqn:Hm.
  - constructor; [eapply match_here_nonneg, Hm | apply IH].
  - destruct s; [constructor | apply IH].
Qed.

Lemma scan_scripts_nonneg scripts :
  forall d, scan_scripts scripts = Some d -> 0 <= Re.int_from 0 d.
Proof.
  induction scripts as [|script scripts IH]; intros d H; [discriminate|].
  destruct script as [[|c s]|]; cbn [scan_scripts] in H; try now apply IH.
  destruct (Re.contains Re.meta_key (String c s)); [|now apply IH].
  destruct (Re.search (String c s)) as [d'|] eqn:Hs; [|now apply IH].
  inversion H; subst. eapply search_nonneg, Hs.
Qed.

(** X5. [get_total_pages] never returns a negative number, whatever the
    network and the parser do. *)
Theorem get_total_pages_nonneg (encoded_job_title : string) (w : World) :
  0 <= fst (get_total_pages cfg net find_all_script encoded_job_title w).
Proof.
  unfold get_total_pages.
  destruct (fetch_page cfg net (first_page_url encoded_job_title) w) as [[[|c html]|] w1];
    simpl; try lia.
  pose proof (findall_from_nonneg (S (String.length (String c html))) (String c html)) as Hall.
  fold (Re.findall (String c html)) in Hall.
  destruct (Re.findall (String c html)) as [|m ms].
  - destruct (find_all_script (String c html)) as [e|scripts]; simpl; [lia|].
    destruct (scan_scripts scripts) as [d|] eqn:Hscan; simpl; [|lia].
    unfold Re.int. destruct (Re.max_str_digits <? String.length d)%nat; simpl; [lia|].
    eapply scan_scripts_nonneg, Hscan.
  - unfold Re.int. destruct (Re.max_str_digits <? String.length m)%nat; simpl; [lia|].
    now inversion Hall.
Qed.

End PageCountFacts.

(** ** The page count that a page embeds is the one read *)

Section PageCountRoundTrip.
Import Fetcher.

Variable cfg : Config.
Variable net : nat -> string -> outcome.
Variable find_all_script : string -> string + list (option string).
















End PageCountRoundTrip.


(** ** Fetcher: requests, queues and the discovery loop *)

Section FetcherRuns.
Import Fetcher.

Variable cfg : Config.
Variable net : nat -> string -> outcome.
Variable quote_plus : string -> string.
Variable select_detail_hrefs : string -> list string.
Variable find_all_script : string -> string + list (option string).

(** X7. [fetch_page] makes one request when [MAX_RETRIES] is positive and
    none otherwise. It returns the text of the response for every status
    outside 400..599, a 1xx or 3xx answer included, and [None] for a
    status in 400..599, for any exception of the request, and whenever
    [MAX_RETRIES] is not positive. *)
Theorem fetch_page_outcome (url : string) (w : World) :
  fst (fetch_page cfg net url w) =
    (if 0 <? MAX_RETRIES cfg then
       match net (length (requests w)) url with
       | Response status text =>
           if (400 <=? status) && (status <? 600) then None else Some text
       | Raises _ => None
       end
     else None) /\
  requests (snd (fetch_page cfg net url w)) =
    (if 0 <? MAX_RETRIES cfg then requests w ++ [url] else requests w).
Proof.
  unfold fetch_page.
  destruct (Z.ltb_spec 0 (MAX_RETRIES cfg)) as [Hmax|Hmax].
  - destruct (Z.to_nat (MAX_RETRIES cfg)) as [|fuel] eqn:Hfuel; [lia|].
    cbn [fetch_page_loop]. destruct (Z.ltb_spec 0 (MAX_RETRIES cfg)); [|lia].
    unfold try_request, request.
    destruct (net (length (requests w)) url) as [status text|e].
    + now destruct ((400 <=? status) && (status <? 600)).
    + now destruct e.
  - destruct (Z.to_nat (MAX_RETRIES cfg)) as [|fuel] eqn:Hfuel; [|lia].
    cbn [fetch_page_loop]. now destruct (0 <? MAX_RETRIES cfg).
Qed.

(** X9. The loop over the new links of a page puts on the scrape queue as
    many of them as the job target leaves room for, in page order and
    with repetitions as the page has them, calls [update_fetch] once for
    each, leaves [seen_urls] alone, and leaves [_fetch_pages] by [return]
    exactly when a link was left over. *)
Theorem enqueue_links_fills_room (new_links : list string) (f : t)
    (p : ProgressTracker.t) :
  let room := Z.to_nat (NUM_JOBS cfg - fetched_count f) in
  let taken := take room new_links in
  exists b f' p',
    enqueue_links cfg new_links f p = (b, f', p') /\
    (b = true <-> (room < length new_links)%nat) /\
    job_queue f' = job_queue f ++ taken /\
    fetched_count f' = fetched_count f + Z.of_nat (length taken) /\
    seen_urls f' = seen_urls f /\
    p' = Nat.iter (length taken) ProgressTracker.update_fetch p.
Proof.
  revert f p. induction new_links as [|link new_links IH]; intros f p room taken.
  - exists false, f, p. subst taken. rewrite take_nil. simpl.
    rewrite app_nil_r. repeat split; try discriminate; try lia.
  - cbn [enqueue_links]. destruct (Z.leb_spec (NUM_JOBS cfg) (fetched_count f)) as [Hfull|Hroom].
    + exists true, f, p. assert (Hr : room = 0%nat) by (subst room; lia).
      subst taken. rewrite Hr. simpl. rewrite app_nil_r.
      repeat split; try lia.
    + destruct (accept_link cfg link f p) as [f1 p1] eqn:Hacc.
      assert (Hf1 : job_queue f1 = job_queue f ++ [link] /\
                    fetched_count f1 = fetched_count f + 1 /\
                    seen_urls f1 = seen_urls f /\ p1 = ProgressTracker.update_fetch p).
      { unfold accept_link in Hacc. inversion Hacc; subst. simpl.
        now destruct (fetched_count f <? HTML_FILE_LIMIT cfg). }
      destruct Hf1 as (Hjq & Hfc & Hseen & Hp1).
      destruct (IH f1 p1) as (b & f' & p' & Hrun & Hb & Hjq' & Hfc' & Hseen' & Hp').
      assert (Hr : room = S (Z.to_nat (NUM_JOBS cfg - fetched_count f1)))
        by (subst room; lia).
      exists b, f', p'. subst taken. rewrite Hr. cbn [take length].
      split; [exact Hrun|]. split; [rewrite Hb; lia|].
      split; [rewrite Hjq', Hjq, <- app_assoc; reflexivity|].
      split; [rewrite Hfc', Hfc; lia|].
      split; [congruence|].
      rewrite Hp', Hp1. now rewrite Nat.iter_succ_r.
Qed.

End FetcherRuns.

(** ** Fetcher: what a title costs, and a site that yields nothing *)

Section FetcherRequests.
Import Fetcher.

Variable cfg : Config.
Variable net : nat -> string -> outcome.
Variable quote_plus : string -> string.
Variable select_detail_hrefs : string -> list string.
Variable find_all_script : string -> string + list (option string).

Lemma fetch_page_requests url w :
  exists rs, requests (snd (fetch_page cfg net url w)) = requests w ++ rs.
Proof.
  unfold fetch_page.
  destruct (Z.to_nat (MAX_RETRIES cfg)) as [|fuel]; cbn [fetch_page_loop];
    destruct (0 <? MAX_RETRIES cfg); try (exists []; now rewrite app_nil_r).
  destruct (try_request_returns net url w) as (r & w1 & Htry & Hreq & _).
  rewrite Htry. simpl. eauto.
Qed.

Lemma get_total_pages_requests enc w :
  0 < MAX_RETRIES cfg ->
  requests (snd (get_total_pages cfg net find_all_script enc w)) =
    requests w ++ [first_page_url enc].
Proof.
  intros Hmax. unfold get_total_pages.
  destruct (fetch_page_single_request cfg net (first_page_url enc) w Hmax) as [Hreq _].
  destruct (fetch_page cfg net (first_page_url enc) w) as [[[|c html]|] w1]; simpl in *;
    try exact Hreq.
  destruct (Re.findall (String c html)) as [|m ms]; [|destruct (Re.int m); exact Hreq].
  destruct (find_all_script (String c html)) as [e|scripts]; [exact Hreq|].
  destruct (scan_scripts scripts) as [d|]; [destruct (Re.int d)|]; exact Hreq.
Qed.

Lemma fetch_pages_of_requests pages job_title enc :
  forall f p w,
  exists rs,
    requests (snd (fetch_pages_of cfg net select_detail_hrefs pages job_title enc f p w)) =
      requests w ++ rs.
Proof.
  induction pages as [|page pages IH]; intros f p w; cbn [fetch_pages_of].
  - exists []. now rewrite app_nil_r.
  - destruct (NUM_JOBS cfg <=? fetched_count f); [exists []; now rewrite app_nil_r|].
    destruct (fetch_page_requests (page_url page enc) w) as [rs Hrs].
    destruct (fetch_page cfg net (page_url page enc) w) as [[[|c html]|] w1]; simpl in Hrs;
      try (exists rs; exact Hrs).
    destruct (extract_job_links select_detail_hrefs (String c html)) as [|l ls];
      [exists rs; exact Hrs|].
    destruct (filter (fun link => link ∉ seen_urls f) (l :: ls)) as [|n ns].
    + match goal with |- context [fetch_pages_of _ _ _ pages _ _ ?f0 ?p0 ?w0] =>
        destruct (IH f0 p0 w0) as [rs' Hrs'] end.
      exists (rs ++ rs'). rewrite Hrs'. simpl. now rewrite Hrs, app_assoc.
    + destruct (enqueue_links cfg (n :: ns) f p) as [[[|] f1] p1].
      * exists rs. exact Hrs.
      * match goal with |- context [fetch_pages_of _ _ _ pages _ _ ?f0 ?p0 ?w0] =>
          destruct (IH f0 p0 w0) as [rs' Hrs'] end.
        exists (rs ++ rs'). rewrite Hrs'. simpl. now rewrite Hrs, app_assoc.
Qed.

Lemma fetch_pages_of_first_request page pages job_title enc f p w :
  0 < MAX_RETRIES cfg -> fetched_count f < NUM_JOBS cfg ->
  exists rs,
    requests (snd (fetch_pages_of cfg net select_detail_hrefs (page :: pages)
                     job_title enc f p w)) =
      requests w ++ page_url page enc :: rs.
Proof.
  intros Hmax Hroom. cbn [fetch_pages_of].
  destruct (Z.leb_spec (NUM_JOBS cfg) (fetched_count f)); [lia|].
  destruct (fetch_page_single_request cfg net (page_url page enc) w Hmax) as [Hreq _].
  destruct (fetch_page cfg net (page_url page enc) w) as [[[|c html]|] w1]; simpl in Hreq;
    try (exists []; exact Hreq).
  destruct (extract_job_links select_detail_hrefs (String c html)) as [|l ls];
    [exists []; exact Hreq|].
  destruct (filter (fun link => link ∉ seen_urls f) (l :: ls)) as [|n ns].
  - match goal with |- context [fetch_pages_of _ _ _ pages _ _ ?f0 ?p0 ?w0] =>
      destruct (fetch_pages_of_requests pages job_title enc f0 p0 w0) as [rs' Hrs'] end.
    exists rs'. rewrite Hrs'. simpl. now rewrite Hreq, <- app_assoc.
  - destruct (enqueue_links cfg (n :: ns) f p) as [[[|] f1] p1].
    + exists []. exact Hreq.
    + match goal with |- context [fetch_pages_of _ _ _ pages _ _ ?f0 ?p0 ?w0] =>
        destruct (fetch_pages_of_requests pages job_title enc f0 p0 w0) as [rs' Hrs'] end.
      exists rs'. rewrite Hrs'. simpl. now rewrite Hreq, <- app_assoc.
Qed.

(** X11. For a title with at least one page, handled below the job
    target, the first results page is requested twice in a row: once by
    [get_total_pages] and once more as page 1 of the loop over the pages. *)
Theorem first_page_requested_twice (job_title : string) (f : t)
    (p : ProgressTracker.t) (w : World) :
  0 < MAX_RETRIES cfg ->
  fetched_count f < NUM_JOBS cfg ->
  1 <= fst (get_total_pages cfg net find_all_script (quote_plus job_title) w) ->
  exists rs,
    requests (snd (fetch_title cfg net quote_plus select_detail_hrefs find_all_script
                     job_title f p w)) =
      requests w ++ first_page_url (quote_plus job_title) ::
                    first_page_url (quote_plus job_title) :: rs.
Proof.
  intros Hmax Hroom Hpages. unfold fetch_title.
  pose proof (get_total_pages_requests (quote_plus job_title) w Hmax) as Hreq.
  destruct (get_total_pages cfg net find_all_script (quote_plus job_title) w) as [n w1].
  simpl in Hpages, Hreq.
  destruct (Z.eqb_spec n 0); [lia|].
  unfold range. rewrite seqZ_cons by lia.
  match goal with |- context [fetch_pages_of _ _ _ (1 :: ?ps) ?jt ?e ?f0 ?p0 ?w0] =>
    destruct (fetch_pages_of_first_request 1 ps jt e f0 p0 w0 Hmax Hroom) as [rs Hrs] end.
  exists rs. rewrite Hrs. simpl. rewrite Hreq, <- app_assoc. reflexivity.
Qed.

Lemma fetch_titles_offline titles :
  (forall url w', truthy (fst (fetch_page cfg net url w')) = false) ->
  forall f p w,
  exists w',
    fetch_titles cfg net quote_plus select_detail_hrefs find_all_script titles f p w =
      (f, p, w').
Proof.
  intros Hoff. induction titles as [|job_title titles IH]; intros f p w;
    cbn [fetch_titles]; [eauto|].
  destruct (get_total_pages_failure cfg net find_all_script (quote_plus job_title) w
              (or_introl (Hoff _ _))) as [Hzero _].
  unfold fetch_title.
  destruct (get_total_pages cfg net find_all_script (quote_plus job_title) w) as [n w1].
  simpl in Hzero. subst n. simpl. apply IH.
Qed.

Lemma fetch_threads_offline threads :
  (forall url w', truthy (fst (fetch_page cfg net url w')) = false) ->
  forall f p w,
  exists w',
    fetch_threads cfg net quote_plus select_detail_hrefs find_all_script threads f p w =
      (f, p, w').
Proof.
  intros Hoff. induction threads as [|threads IH]; intros f p w; cbn [fetch_threads];
    [eauto|].
  unfold _fetch_pages.
  destruct (fetch_titles_offline (JOB_TITLES cfg) Hoff f p w) as [w1 Hw1].
  rewrite Hw1. apply IH.
Qed.

Lemma fetch_more_offline fuel :
  (forall url w', truthy (fst (fetch_page cfg net url w')) = false) ->
  forall f p w,
    fetched_count f < NUM_JOBS cfg ->
    exists w',
      fetch_more cfg net quote_plus select_detail_hrefs find_all_script fuel f p w =
        StillFetching f p w'.
Proof.
  intros Hoff. induction fuel as [|fuel IH]; intros f p w Hlt; cbn [fetch_more];
    destruct (Z.ltb_spec (fetched_count f) (NUM_JOBS cfg)); try lia; [eauto|].
  unfold _fetch_pages.
  destruct (fetch_titles_offline (JOB_TITLES cfg) Hoff f p w) as [w1 Hw1].
  rewrite Hw1. now apply IH.
Qed.

(** X12. When no request brings a page (the site or the API is down)
    and the job target is not reached, [fetch_jobs] does not return: after
    its threads and any number of further runs of [_fetch_pages] the
    fetcher and the tracker are as they were and the loop goes on. *)
Theorem fetch_jobs_spins_offline (threads fuel : nat) (f : t)
    (p : ProgressTracker.t) (w : World) :
  (forall url w', truthy (fst (fetch_page cfg net url w')) = false) ->
  fetched_count f < NUM_JOBS cfg ->
  exists w',
    fetch_jobs cfg net quote_plus select_detail_hrefs find_all_script threads fuel f p w =
      StillFetching f p w'.
Proof.
  intros Hoff Hlt. unfold fetch_jobs.
  destruct (fetch_threads_offline threads Hoff f p w) as [w1 Hw1]. rewrite Hw1.
  destruct (fetch_more_offline fuel Hoff f p w1 Hlt) as [w2 Hw2]. rewrite Hw2. eauto.
Qed.

End FetcherRequests.

Lemma first_page_requested_twice_witness :
  let hrefs := fun _ : string => ["/en/vacancies/detail/a"] in
  let u := Fetcher.first_page_url "Koch" in
  0 < MAX_RETRIES config /\
  Fetcher.fetched_count Fetcher.init < NUM_JOBS config /\
  exists rs,
    requests (snd (Fetcher.fetch_title config (steady_net "<html>jobs</html>") (fun s => s)
                     hrefs (fun _ => inr []) "Koch" Fetcher.init
                     (ProgressTracker.init 1000 90) fresh_world)) = u :: u :: rs.
Proof.
  intros hrefs u. split; [reflexivity|]. split; [reflexivity|].
  destruct (first_page_requested_twice config (steady_net "<html>jobs</html>") (fun s => s)
              hrefs (fun _ => inr []) "Koch" Fetcher.init (ProgressTracker.init 1000 90)
              fresh_world eq_refl eq_refl) as [rs Hrs].
  - vm_compute. discriminate.
  - exists rs. exact Hrs.
Defined.

Lemma fetch_jobs_spins_offline_witness :
  (forall url w', truthy (fst (Fetcher.fetch_page config dead_net url w')) = false) /\
  Fetcher.fetched_count Fetcher.init < NUM_JOBS config /\
  exists w',
    Fetcher.fetch_jobs config dead_net (fun s => s) (fun _ => []) (fun _ => inr []) 3 5
      Fetcher.init (ProgressTracker.init 1000 90) fresh_world =
      Fetcher.StillFetching Fetcher.init (ProgressTracker.init 1000 90) w'.
Proof.
  assert (Hoff : forall url w',
             truthy (fst (Fetcher.fetch_page config dead_net url w')) = false).
  { intros url w'.
    now rewrite (fetch_page_raises config dead_net url w' Fetcher.ConnectionError). }
  split; [exact Hoff|]. split; [reflexivity|].
  apply (fetch_jobs_spins_offline config dead_net (fun s => s) (fun _ => [])
           (fun _ => inr []) 3 5 Fetcher.init (ProgressTracker.init 1000 90) fresh_world Hoff).
  reflexivity.
Defined.

(** ** Scraper: what a worker leaves behind *)

Section ScraperRuns.
Import Scraper.

Variable cfg : Config.
Variable net : nat -> string -> Fetcher.outcome.
Variable parse : string -> Soup.
Variable repr : JobData -> string.

Lemma or_NA_not_empty x : or_NA x <> EmptyString.
Proof. destruct x; discriminate. Qed.

(** X13. The title is the text of the first of the three places, the
    title tag cut at its Job Offer suffix, the first heading and the
    job-title block, that is present and whose trimmed text is not N/A;
    it is N/A when there is none. A title tag that trims to the empty
    string therefore gives an empty title, without a look at the other
    two. *)
Theorem extract_title_first_usable (soup : Soup) :
  extract_title soup =
    default "N/A"
      (head (filter (fun text => text <> "N/A")
               (omap (fun candidate => candidate)
                  [(fun text => strip (split_head " - Job Offer" text)) <$> find_title soup;
                   strip <$> find_h1 soup;
                   strip <$> find_div_job_title soup]))).
Proof.
  unfold extract_title.
  destruct (find_title soup) as [t|], (find_h1 soup) as [h|],
    (find_div_job_title soup) as [v|]; simpl;
    repeat match goal with
           | |- context [strip ?a] =>
               lazymatch goal with
               | H : strip a <> "N/A" |- _ => fail
               | _ => destruct (decide (strip a = "N/A")) as [->|?]
               end
           end;
    simpl;
    repeat match goal with
           | H : ?c <> "N/A" |- context [String.eqb ?c "N/A"] =>
               rewrite (proj2 (String.eqb_neq c "N/A") H); simpl
           end;
    repeat (rewrite ?filter_cons, ?filter_nil; simpl);
    repeat match goal with
           | |- context [decide ?P] => destruct (decide P); simpl
           end; try congruence; contradiction.
Qed.

(** The three ways a call of [scrape_job] can end. *)
Lemma scrape_job_cases job_url s p w :
  match scrape_job cfg net parse repr job_url s p w with
  | (r, s1, p1, _) =>
      (r = None /\ job_url ∈ seen_jobs s /\ s1 = s /\ p1 = p) \/
      (~ job_url ∈ seen_jobs s /\ seen_jobs s1 = seen_jobs s ∪ {[job_url]} /\
       ((r = None /\ scraped_jobs s1 = scraped_jobs s /\ job_id s1 = job_id s /\ p1 = p) \/
        (exists job, r = Some job /\ scraped_jobs s1 = scraped_jobs s ++ [job] /\
                     id job = job_id s /\ url job = job_url /\
                     job_id s1 = job_id s + 1 /\ p1 = ProgressTracker.update_scrape p /\
                     Forall (fun x => x <> EmptyString) (label_fields job))))
  end.
Proof.
  unfold scrape_job. destruct (decide (job_url ∈ seen_jobs s)) as [Hin|Hnotin];
    [left; auto|].
  destruct (Fetcher.fetch_page cfg net job_url w) as [[[|c html]|] w1];
    right; (split; [exact Hnotin|]); (split; [reflexivity|]);
    try (left; simpl; auto; fail).
  right. eexists. split; [reflexivity|]. simpl.
  repeat (split; [reflexivity|]).
  unfold label_fields. simpl. repeat constructor; apply or_NA_not_empty.
Qed.

(** What one worker adds to [scraped_jobs], to [seen_jobs], to [job_id]
    and to the tracker while it empties a queue. *)
Lemma worker_appends job_queue :
  forall s p w,
  exists new,
    scraped_jobs (fst (fst (worker cfg net parse repr job_queue s p w))) =
      scraped_jobs s ++ new /\
    id <$> new = seqZ (job_id s) (Z.of_nat (length new)) /\
    job_id (fst (fst (worker cfg net parse repr job_queue s p w))) =
      job_id s + Z.of_nat (length new) /\
    NoDup (url <$> new) /\
    (forall u, u ∈ url <$> new -> u ∈ job_queue /\ u ∉ seen_jobs s) /\
    seen_jobs (fst (fst (worker cfg net parse repr job_queue s p w))) =
      seen_jobs s ∪ list_to_set job_queue /\
    snd (fst (worker cfg net parse repr job_queue s p w)) =
      ProgressTracker.run (repeat ProgressTracker.UpdateScrape (length new)) p /\
    Forall (fun job => Forall (fun x => x <> EmptyString) (label_fields job)) new.
Proof.
  induction job_queue as [|job_url job_queue IH]; intros s p w; cbn [worker].
  - exists []. simpl. rewrite app_nil_r, Z.add_0_r.
    split; [reflexivity|]. split; [reflexivity|]. split; [reflexivity|].
    split; [constructor|]. split; [intros u Hu; inversion Hu|].
    split; [|split; [reflexivity | constructor]].
    apply set_eq. intros x. rewrite elem_of_union, elem_of_empty. tauto.
  - pose proof (scrape_job_cases job_url s p w) as Hcases.
    destruct (scrape_job cfg net parse repr job_url s p w) as [[[r s1] p1] w1].
    destruct (IH s1 p1 w1) as (new & Hjobs & Hids & Hid & Hnodup & Hfrom & Hseen & Hp & Hlab).
    destruct Hcases as [(_ & Hin & -> & ->)|(Hnotin & Hseen1 & [(_ & Hj & Hi & ->)|Hsome])].
    + exists new.
      split; [exact Hjobs|]. split; [exact Hids|]. split; [exact Hid|].
      split; [exact Hnodup|]. split.
      { intros u Hu. destruct (Hfrom u Hu) as [Hq Hout].
        split; [now apply elem_of_cons; right | exact Hout]. }
      split; [|split; assumption].
      rewrite Hseen. apply set_eq. intros x.
      rewrite !elem_of_union, list_to_set_cons, elem_of_union, elem_of_singleton.
      split; [tauto|]. intros [Hx|[->|Hx]]; auto.
    + exists new. rewrite Hjobs, Hid, Hj, Hi, Hseen, Hseen1.
      rewrite Hi in Hids.
      split; [reflexivity|]. split; [exact Hids|]. split; [reflexivity|].
      split; [exact Hnodup|]. split.
      { intros u Hu. destruct (Hfrom u Hu) as [Hq Hout]. rewrite Hseen1 in Hout.
        split; [now apply elem_of_cons; right|].
        intros Hx. apply Hout, elem_of_union. now left. }
      split; [|split; assumption].
      apply set_eq. intros x.
      rewrite !elem_of_union, list_to_set_cons, elem_of_union. tauto.
    + destruct Hsome as (job & _ & Hj & Hjid & Hurl & Hi & -> & Hjl).
      exists (job :: new). rewrite Hjobs, Hid, Hj, Hi, Hseen, Hseen1.
      rewrite Hi in Hids. rewrite <- app_assoc. simpl length.
      split; [reflexivity|]. split.
      { rewrite fmap_cons, Hids, Hjid.
        rewrite (seqZ_cons (job_id s)) by lia.
        do 2 f_equal; lia. }
      split; [lia|]. split.
      { rewrite fmap_cons. constructor; [|exact Hnodup].
        intros Hu. destruct (Hfrom _ Hu) as [_ Hout]. rewrite Hseen1, Hurl in Hout.
        apply Hout, elem_of_union. right. now apply elem_of_singleton. }
      split.
      { intros x Hx. rewrite fmap_cons in Hx. apply elem_of_cons in Hx as [->|Hx].
        - rewrite Hurl. split; [apply elem_of_cons; now left | exact Hnotin].
        - destruct (Hfrom x Hx) as [Hq Hout]. rewrite Hseen1 in Hout.
          split; [now apply elem_of_cons; right|].
          intros Hin. apply Hout, elem_of_union. now left. }
      split.
      { apply set_eq. intros x.
        rewrite !elem_of_union, list_to_set_cons, elem_of_union. tauto. }
      split; [exact Hp|].
      constructor; assumption.
Qed.

(** X14. The records a worker appends carry consecutive numbers: the
    first gets the [job_id] the scraper had, each next one the number
    after, and [job_id] ends one past the last number given out. Skipped
    and failed addresses use up no number. *)
Theorem worker_numbers_records (job_queue : list string) (s : t)
    (p : ProgressTracker.t) (w : World) :
  exists new,
    scraped_jobs (fst (fst (worker cfg net parse repr job_queue s p w))) =
      scraped_jobs s ++ new /\
    id <$> new = seqZ (job_id s) (Z.of_nat (length new)) /\
    job_id (fst (fst (worker cfg net parse repr job_queue s p w))) =
      job_id s + Z.of_nat (length new).
Proof.
  destruct (worker_appends job_queue s p w) as (new & H1 & H2 & H3 & _).
  exists new. auto.
Qed.


(** X16. In a record that [scrape_job] returns, none of the six fields
    read by label is the empty string: publication date, workload,
    contract type, salary, languages and place of work hold the text
    found or N/A. *)
Theorem scraped_label_fields_not_empty (job_url : string) (s s1 : t)
    (p p1 : ProgressTracker.t) (w w1 : World) (job : JobData) :
  scrape_job cfg net parse repr job_url s p w = (Some job, s1, p1, w1) ->
  Forall (fun x => x <> EmptyString) (label_fields job).
Proof.
  intros Hrun. pose proof (scrape_job_cases job_url s p w) as Hcases.
  rewrite Hrun in Hcases.
  destruct Hcases as [(Hr & _)|(_ & _ & [(Hr & _)|(job' & Hr & H)])];
    try discriminate.
  injection Hr as ->. apply H.
Qed.

Lemma run_update_scrape n :
  forall p,
    ProgressTracker.fetching_done p = true ->
    ProgressTracker.scraped p <= ProgressTracker.fetched p ->
    ProgressTracker.scraped
      (ProgressTracker.run (repeat ProgressTracker.UpdateScrape n) p) =
      Z.min (ProgressTracker.scraped p + Z.of_nat n) (ProgressTracker.fetched p) /\
    ProgressTracker.fetched
      (ProgressTracker.run (repeat ProgressTracker.UpdateScrape n) p) =
      ProgressTracker.fetched p.
Proof.
  induction n as [|n IH]; intros p Hdone Hle.
  - simpl. split; [lia | reflexivity].
  - change (repeat ProgressTracker.UpdateScrape (S n))
      with (ProgressTracker.UpdateScrape :: repeat ProgressTracker.UpdateScrape n).
    unfold ProgressTracker.run. cbn [fold_left ProgressTracker.apply_call].
    fold (ProgressTracker.run (repeat ProgressTracker.UpdateScrape n)
            (ProgressTracker.update_scrape p)).
    assert (Hstep : ProgressTracker.fetching_done (ProgressTracker.update_scrape p) = true /\
                    ProgressTracker.fetched (ProgressTracker.update_scrape p) =
                      ProgressTracker.fetched p /\
                    ProgressTracker.scraped (ProgressTracker.update_scrape p) =
                      Z.min (ProgressTracker.scraped p + 1) (ProgressTracker.fetched p)).
    { unfold ProgressTracker.update_scrape. rewrite Hdone. simpl.
      destruct (Z.ltb_spec (ProgressTracker.scraped p) (ProgressTracker.fetched p));
        match goal with |- context [if ?c then _ else _] => destruct c end;
        simpl; repeat split; try assumption; lia. }
    destruct Hstep as (Hd1 & Hf1 & Hs1).
    destruct (IH (ProgressTracker.update_scrape p) Hd1 ltac:(lia)) as [Hs Hf].
    rewrite Hs, Hf, Hf1, Hs1. split; [lia | reflexivity].
Qed.

(** X17. A worker calls [update_scrape] once per record it appends. So
    after fetching is done the tracker's scraped count grows by the
    number of new records, up to the fetched count and not past it. *)
Theorem worker_reports_each_record (job_queue : list string) (s : t)
    (p : ProgressTracker.t) (w : World) :
  ProgressTracker.fetching_done p = true ->
  ProgressTracker.scraped p <= ProgressTracker.fetched p ->
  exists new,
    scraped_jobs (fst (fst (worker cfg net parse repr job_queue s p w))) =
      scraped_jobs s ++ new /\
    snd (fst (worker cfg net parse repr job_queue s p w)) =
      ProgressTracker.run (repeat ProgressTracker.UpdateScrape (length new)) p /\
    ProgressTracker.scraped (snd (fst (worker cfg net parse repr job_queue s p w))) =
      Z.min (ProgressTracker.scraped p + Z.of_nat (length new)) (ProgressTracker.fetched p).
Proof.
  intros Hdone Hle.
  destruct (worker_appends job_queue s p w) as (new & H1 & _ & _ & _ & _ & _ & Hp & _).
  exists new. split; [exact H1|]. split; [exact Hp|].
  rewrite Hp. apply (run_update_scrape (length new) p Hdone Hle).
Qed.

End ScraperRuns.

Lemma scraped_label_fields_not_empty_witness :
  let job_url := "https://www.jobs.ch/en/vacancies/detail/1" in
  exists job s1 p1 w1,
    Scraper.scrape_job config (steady_net "<html>ok</html>") no_soup (fun _ => "{}")
      job_url Scraper.init (ProgressTracker.init 1000 90) fresh_world =
      (Some job, s1, p1, w1) /\
    Forall (fun x => x <> EmptyString) (Scraper.label_fields job).
Proof.
  intros job_url.
  destruct (Scraper.scrape_job config (steady_net "<html>ok</html>") no_soup (fun _ => "{}")
              job_url Scraper.init (ProgressTracker.init 1000 90) fresh_world)
    as [[[[job|] s1] p1] w1] eqn:Hrun.
  2: { vm_compute in Hrun. discriminate. }
  exists job, s1, p1, w1. split; [reflexivity|].
  exact (scraped_label_fields_not_empty config (steady_net "<html>ok</html>") no_soup
           (fun _ => "{}") job_url Scraper.init s1 (ProgressTracker.init 1000 90) p1
           fresh_world w1 job Hrun).
Defined.

Lemma worker_reports_each_record_witness :
  let p := ProgressTracker.update_fetch (ProgressTracker.update_fetch
             (ProgressTracker.init 2 1)) in
  let q := ["https://www.jobs.ch/en/vacancies/detail/a";
            "https://www.jobs.ch/en/vacancies/detail/b";
            "https://www.jobs.ch/en/vacancies/detail/a"] in
  ProgressTracker.fetching_done p = true /\
  ProgressTracker.scraped p <= ProgressTracker.fetched p /\
  exists new,
    Scraper.scraped_jobs
      (fst (fst (Scraper.worker config (steady_net "<html>ok</html>") no_soup
                   (fun _ => "{}") q Scraper.init p fresh_world))) = new /\
    ProgressTracker.scraped
      (snd (fst (Scraper.worker config (steady_net "<html>ok</html>") no_soup
                   (fun _ => "{}") q Scraper.init p fresh_world))) =
      Z.min (0 + Z.of_nat (length new)) 2.
Proof.
  intros p q. split; [reflexivity|]. split; [vm_compute; discriminate|].
  destruct (worker_reports_each_record config (steady_net "<html>ok</html>") no_soup
              (fun _ => "{}") q Scraper.init p fresh_world eq_refl)
    as (new & Hjobs & _ & Hscraped).
  - vm_compute. discriminate.
  - exists new. split; [exact Hjobs | exact Hscraped].
Defined.

(** ** DataSaver: the Save Queue and the background thread *)

Section DataSaverRuns.
Import DataSaver.

Variable cfg : Config.

(** X18. The first submission of an address wins. After any submissions
    through [save_job], a record is on the Save Queue exactly when it was
    there before, or it was submitted, its address was not in [seen_jobs]
    before, and no earlier submission of the sequence had its address. *)
Theorem first_submission_wins (jobs : list JobData) :
  forall (d : t) (w : World) (j : JobData),
    j ∈ job_queue (fst (submit jobs d w)) <->
    j ∈ job_queue d \/
    exists pre post,
      jobs = pre ++ j :: post /\ ~ url j ∈ url <$> pre /\ ~ url j ∈ seen_jobs d.
Proof.
  induction jobs as [|a jobs IH]; intros d w j; cbn [submit].
  - simpl. split; [auto|]. intros [H|(pre & post & Heq & _)]; [exact H|].
    destruct pre; discriminate.
  - unfold save_job. destruct (decide (url a ∈ seen_jobs d)) as [Hin|Hout].
    + rewrite IH. split.
      * intros [H|(pre & post & -> & Hpre & Hseen)]; [left; exact H|].
        right. exists (a :: pre), post. split; [reflexivity|]. split; [|exact Hseen].
        rewrite fmap_cons, elem_of_cons. intros [Heq|H]; [|auto].
        apply Hseen. rewrite Heq. exact Hin.
      * intros [H|(pre & post & Heq & Hpre & Hseen)]; [left; exact H|].
        destruct pre as [|x pre]; simpl in Heq; injection Heq as -> ->.
        { exfalso. auto. }
        right. exists pre, post. split; [reflexivity|]. split; [|exact Hseen].
        intros H. apply Hpre. rewrite fmap_cons. apply elem_of_cons. now right.
    + rewrite IH. simpl. split.
      * intros [H|(pre & post & -> & Hpre & Hseen)].
        -- apply elem_of_app in H as [H|H]; [left; exact H|].
           apply elem_of_cons in H as [->|H]; [|inversion H].
           right. exists [], jobs. split; [reflexivity|].
           split; [intros H; inversion H | exact Hout].
        -- right. exists (a :: pre), post. split; [reflexivity|]. split.
           ++ rewrite fmap_cons, elem_of_cons. intros [Heq|H]; [|auto].
              apply Hseen, elem_of_union. right. now apply elem_of_singleton.
           ++ intros H. apply Hseen, elem_of_union. now left.
      * intros [H|(pre & post & Heq & Hpre & Hseen)].
        -- left. apply elem_of_app. now left.
        -- destruct pre as [|x pre]; simpl in Heq; injection Heq as -> ->.
           ++ left. apply elem_of_app. right. apply elem_of_cons. now left.
           ++ right. exists pre, post. split; [reflexivity|]. split.
              ** intros H. apply Hpre. rewrite fmap_cons. apply elem_of_cons. now right.
              ** rewrite elem_of_union, elem_of_singleton. intros [H|H]; [auto|].
                 apply Hpre. rewrite fmap_cons. apply elem_of_cons. now left.
Qed.

Lemma header_for_nil file : header_for file [] = [].
Proof. now destruct file. Qed.

Lemma header_for_app file b x : b <> [] -> header_for file (b ++ x) = header_for file b.
Proof. intros Hb. destruct b; [congruence|]. now destruct file. Qed.

Lemma header_for_written file b x :
  b <> [] -> header_for (file ++ header_for file b ++ map Row b) x = [].
Proof.
  intros Hb. destruct b as [|j b]; [congruence|].
  destruct file; simpl; now destruct x.
Qed.

Lemma batch_save_jobs_files batch d w :
  json_file (fst (batch_save_jobs cfg batch d w)) = json_file d ++ batch /\
  db_table (fst (batch_save_jobs cfg batch d w)) = db_table d ++ map db_row batch /\
  csv_file (fst (batch_save_jobs cfg batch d w)) =
    csv_file d ++ header_for (csv_file d) batch ++ map Row batch.
Proof.
  destruct batch as [|job batch]; simpl.
  - now rewrite header_for_nil, !app_nil_r.
  - repeat split.
Qed.

(** What the background thread wrote and what it holds, for any results
    of its [get] calls. *)
Lemma process_queue_writes gets :
  forall batch d w,
    Z.of_nat (length batch) < batch_size ->
    match process_queue cfg gets batch d w with
    | (stopped, batch', d', _) =>
        exists written rest,
          batch ++ jobs_of gets = written ++ batch' ++ rest /\
          (stopped = false -> rest = []) /\
          (stopped = true -> batch' = []) /\
          Z.of_nat (length batch') < batch_size /\
          json_file d' = json_file d ++ written /\
          db_table d' = db_table d ++ map db_row written /\
          csv_file d' = csv_file d ++ header_for (csv_file d) written ++ map Row written
    end.
Proof.
  induction gets as [|g gets IH]; intros batch d w Hlen.
  - simpl. exists [], []. rewrite header_for_nil, !app_nil_r. simpl.
    repeat split; auto. discriminate.
  - destruct g as [job|idle]; cbn [process_queue].
    + change (jobs_of (Got job :: gets)) with (job :: jobs_of gets).
      destruct (Z.leb_spec batch_size (Z.of_nat (length (batch ++ [job])))) as [Hfull|Hroom].
      * destruct (batch_save_jobs_files (batch ++ [job]) d w) as (Hjson & Hdb & Hcsv).
        destruct (batch_save_jobs cfg (batch ++ [job]) d w) as [d1 w1].
        simpl in Hjson, Hdb, Hcsv.
        specialize (IH [] d1 w1 eq_refl).
        destruct (process_queue cfg gets [] d1 w1) as [[[stopped batch'] d'] w'].
        destruct IH as (written & rest & Heq & Hrest & Hb & Hlen' & Hjson' & Hdb' & Hcsv').
        assert (Hne : batch ++ [job] <> []) by (destruct batch; discriminate).
        exists ((batch ++ [job]) ++ written), rest.
        split; [simpl in Heq; rewrite Heq, <- !app_assoc; reflexivity|].
        split; [exact Hrest|]. split; [exact Hb|]. split; [exact Hlen'|].
        rewrite Hjson', Hdb', Hcsv', Hjson, Hdb, Hcsv.
        rewrite (header_for_written _ _ _ Hne), (header_for_app _ _ _ Hne).
        rewrite !map_app, <- !app_assoc. simpl. auto.
      * specialize (IH (batch ++ [job]) d w Hroom).
        destruct (process_queue cfg gets (batch ++ [job]) d w) as [[[stopped batch'] d'] w'].
        destruct IH as (written & rest & Heq & H).
        exists written, rest. split; [|exact H].
        rewrite <- Heq, <- app_assoc. reflexivity.
    + change (jobs_of (Empty idle :: gets)) with (jobs_of gets).
      destruct batch as [|j batch]; [apply IH; exact Hlen|].
      destruct idle; [|apply IH; exact Hlen].
      destruct (batch_save_jobs_files (j :: batch) d w) as (Hjson & Hdb & Hcsv).
      destruct (batch_save_jobs cfg (j :: batch) d w) as [d1 w1].
      exists (j :: batch), (jobs_of gets). simpl in *.
      repeat split; auto. discriminate.
Qed.

(** X19. The background thread neither loses, repeats nor reorders a
    record: for any results of its [get] calls, the records taken from
    the queue are, in order, the ones appended to the JSON file, to the
    database table and to the data rows of the CSV file, followed by the
    ones still held in the batch, which are fewer than fifty; after the
    thread has stopped it holds none. *)
Theorem process_queue_keeps_order (gets : list get) (d : t) (w : World) :
  match process_queue cfg gets [] d w with
  | (stopped, batch', d', _) =>
      exists written rest,
        jobs_of gets = written ++ batch' ++ rest /\
        (stopped = false -> rest = []) /\
        (stopped = true -> batch' = []) /\
        Z.of_nat (length batch') < batch_size /\
        json_file d' = json_file d ++ written /\
        db_table d' = db_table d ++ map db_row written /\
        csv_rows (csv_file d') = csv_rows (csv_file d) ++ written
  end.
Proof.
  pose proof (process_queue_writes gets [] d w eq_refl) as H.
  destruct (process_queue cfg gets [] d w) as [[[stopped batch'] d'] w'].
  destruct H as (written & rest & Heq & Hrest & Hb & Hlen & Hjson & Hdb & Hcsv).
  exists written, rest. repeat (split; [assumption|]).
  rewrite Hcsv, !csv_rows_app, csv_rows_Row.
  unfold header_for. destruct (csv_file d); destruct written; reflexivity.
Qed.

(** X20. The CSV file gets one header line at most: whatever the thread
    writes, the file afterwards is the file as it was, then a header line
    when the file was missing or empty and at least one record was
    written, then one row per record written. A file that had content
    gets no header, also when that content had none. *)
Theorem csv_header_only_on_empty_file (gets : list get) (d : t) (w : World) :
  exists written,
    json_file (snd (fst (process_queue cfg gets [] d w))) = json_file d ++ written /\
    csv_file (snd (fst (process_queue cfg gets [] d w))) =
      csv_file d ++ header_for (csv_file d) written ++ map Row written.
Proof.
  pose proof (process_queue_writes gets [] d w eq_refl) as H.
  destruct (process_queue cfg gets [] d w) as [[[stopped batch'] d'] w'].
  destruct H as (written & rest & _ & _ & _ & _ & Hjson & _ & Hcsv).
  exists written. simpl. auto.
Qed.

(** X21. Once the thread has left its loop after an idle flush it takes
    nothing more from the queue: whatever is put there afterwards, the
    outcome is the same, so such records reach no sink. *)
Theorem process_queue_stops_for_good (gets later : list get) (batch batch' : list JobData)
    (d d' : t) (w w' : World) :
  process_queue cfg gets batch d w = (true, batch', d', w') ->
  process_queue cfg (gets ++ later) batch d w = (true, batch', d', w').
Proof.
  revert batch d w. induction gets as [|g gets IH]; intros batch d w H.
  - simpl in H. discriminate.
  - destruct g as [job|idle]; cbn [app process_queue] in *.
    + destruct (batch_size <=? Z.of_nat (length (batch ++ [job]))).
      * destruct (batch_save_jobs cfg (batch ++ [job]) d w) as [d1 w1]. now apply IH.
      * now apply IH.
    + destruct batch as [|j batch]; [now apply IH|].
      destruct idle; [exact H | now apply IH].
Qed.

(** X22. Fewer than fifty records and no idle timeout after ten quiet
    seconds: nothing is written. The records taken from the queue sit in
    the batch, the three sinks are as they were, and the thread is
    waiting in the next [get]. *)
Theorem small_batch_waits (gets : list get) (d : t) (w : World) :
  Forall (fun g => g <> Empty true) gets ->
  Z.of_nat (length (jobs_of gets)) < batch_size ->
  process_queue cfg gets [] d w = (false, jobs_of gets, d, w).
Proof.
  intros Hquiet Hlen.
  assert (Hgen : forall batch,
             Z.of_nat (length (batch ++ jobs_of gets)) < batch_size ->
             process_queue cfg gets batch d w = (false, batch ++ jobs_of gets, d, w)).
  { clear Hlen. induction Hquiet as [|g gets Hg Hquiet IH]; intros batch Hlen.
    - simpl. now rewrite app_nil_r.
    - destruct g as [job|idle]; cbn [process_queue].
      + change (jobs_of (Got job :: gets)) with (job :: jobs_of gets) in *.
        assert (Hlen1 : Z.of_nat (length ((batch ++ [job]) ++ jobs_of gets)) < batch_size).
        { rewrite <- app_assoc. exact Hlen. }
        destruct (Z.leb_spec batch_size (Z.of_nat (length (batch ++ [job])))) as [Hfull|_].
        * rewrite !length_app in Hlen1. rewrite length_app in Hfull. lia.
        * rewrite (IH _ Hlen1), <- app_assoc. reflexivity.
      + change (jobs_of (Empty idle :: gets)) with (jobs_of gets) in *.
        destruct batch as [|j batch]; [now apply IH|].
        destruct idle; [congruence | now apply IH]. }
  apply (Hgen [] Hlen).
Qed.

End DataSaverRuns.

Lemma process_queue_stops_for_good_witness :
  let job := {| id := 1; url := "https://www.jobs.ch/en/vacancies/detail/1";
                title := "Koch"; publication_date := "N/A"; workload := "100%";
                contract_type := "N/A"; salary := "N/A"; languages := "N/A";
                place_of_work := "Bern" |} in
  let late := {| id := 2; url := "https://www.jobs.ch/en/vacancies/detail/2";
                 title := "Arzt"; publication_date := "N/A"; workload := "80%";
                 contract_type := "N/A"; salary := "N/A"; languages := "N/A";
                 place_of_work := "Biel" |} in
  let d := DataSaver.init [] [] [] in
  exists d' w',
    DataSaver.process_queue config [DataSaver.Got job; DataSaver.Empty true] [] d
      fresh_world = (true, [], d', w') /\
    DataSaver.process_queue config
      ([DataSaver.Got job; DataSaver.Empty true] ++ [DataSaver.Got late; DataSaver.Empty true])
      [] d fresh_world = (true, [], d', w') /\
    DataSaver.json_file d' = [job].
Proof.
  intros job late d. eexists _, _.
  split; [reflexivity|]. split; [|reflexivity].
  apply (process_queue_stops_for_good config [DataSaver.Got job; DataSaver.Empty true]).
  reflexivity.
Defined.

Lemma small_batch_waits_witness :
  let job := {| id := 1; url := "https://www.jobs.ch/en/vacancies/detail/1";
                title := "Koch"; publication_date := "N/A"; workload := "100%";
                contract_type := "N/A"; salary := "N/A"; languages := "N/A";
                place_of_work := "Bern" |} in
  let gets := [DataSaver.Got job; DataSaver.Empty false] in
  Forall (fun g => g <> DataSaver.Empty true) gets /\
  Z.of_nat (length (DataSaver.jobs_of gets)) < DataSaver.batch_size /\
  DataSaver.process_queue config gets [] (DataSaver.init [] [] []) fresh_world =
    (false, [job], DataSaver.init [] [] [], fresh_world).
Proof.
  intros job gets.
  assert (Hquiet : Forall (fun g => g <> DataSaver.Empty true) gets).
  { repeat constructor; discriminate. }
  split; [exact Hquiet|]. split; [reflexivity|].
  apply (small_batch_waits config gets (DataSaver.init [] [] []) fresh_world Hquiet).
  reflexivity.
Defined.

(** ** Downloader: the cap, the queue's join and the tracker *)

Section DownloaderRuns.
Import Downloader.

Variable cfg : Config.
Variable net : nat -> string -> Fetcher.outcome.

(** Below the cap every item taken is marked done and the loop empties
    the queue. *)
Lemma download_loop_done q :
  forall unfinished d p w,
    num_html_saved d + Z.of_nat (length q) <= HTML_FILE_LIMIT cfg ->
    exists d' p' w',
      download_loop cfg net q unfinished d p w =
        ([], (unfinished - length q)%nat, d', p', w') /\
      num_html_saved d <= num_html_saved d' <= num_html_saved d + Z.of_nat (length q).
Proof.
  induction q as [|job_url q IH]; intros unfinished d p w Hroom; cbn [download_loop].
  - eexists _, _, _. rewrite Nat.sub_0_r. split; [reflexivity|]. simpl. lia.
  - assert (Hpred : forall d0 p0 w0,
               num_html_saved d <= num_html_saved d0 <= num_html_saved d + 1 ->
               exists d' p' w',
                 download_loop cfg net q (Nat.pred unfinished) d0 p0 w0 =
                   ([], (unfinished - length (job_url :: q))%nat, d', p', w') /\
                 num_html_saved d <= num_html_saved d' <=
                   num_html_saved d + Z.of_nat (length (job_url :: q))).
    { intros d0 p0 w0 Hd0. simpl length in *.
      destruct (IH (Nat.pred unfinished) d0 p0 w0 ltac:(lia)) as (d' & p' & w' & Hrun & Hn).
      exists d', p', w'. rewrite Hrun. split; [|lia].
      do 4 f_equal. lia. }
    destruct (negb (String.prefix "https" job_url)); [apply Hpred; lia|].
    destruct (Fetcher.fetch_page cfg net job_url w) as [[[|c html]|] w1];
      try (apply Hpred; lia).
    simpl length in Hroom.
    destruct (Z.leb_spec (HTML_FILE_LIMIT cfg) (num_html_saved d)); [lia|].
    apply Hpred. simpl. lia.
Qed.

(** X23. Run by one worker on a queue that is not empty and holds no
    more items than the cap leaves room for, [download_jobs] empties the
    queue and marks every item done, so that [join] returns; it saves at
    most [HTML_FILE_LIMIT] pages in all and sets [downloading_done];
    [complete] then returns without polling. *)
Theorem download_jobs_drains_short_queue (q : list string) (d : t)
    (p : ProgressTracker.t) (w : World) :
  q <> [] ->
  num_html_saved d + Z.of_nat (length q) <= HTML_FILE_LIMIT cfg ->
  exists d' p' w',
    download_jobs cfg net q d p w = Some ([], d', p', w') /\
    ProgressTracker.downloading_done p' = true /\
    num_html_saved d <= num_html_saved d' <= HTML_FILE_LIMIT cfg /\
    forall fuel elapsed, ProgressTracker.complete fuel elapsed p' w' <> None.
Proof.
  intros Hne Hroom. unfold download_jobs.
  destruct q as [|u q]; [congruence|].
  destruct (download_loop_done (u :: q) (length (u :: q)) d p
              (logging INFO "Starting downloading process..." w) Hroom)
    as (d' & p' & w' & Hrun & Hn).
  rewrite Hrun, Nat.sub_diag.
  eexists _, _, _. split; [reflexivity|]. split; [reflexivity|].
  split; [lia|].
  intros fuel elapsed. unfold ProgressTracker.complete.
  destruct fuel; simpl; discriminate.
Qed.

(** At the cap with a page in hand the loop is left by [break], before
    [task_done]. *)
Lemma download_loop_blocks q :
  forall unfinished d p w,
    (forall url w0, exists c html w1,
        Fetcher.fetch_page cfg net url w0 = (Some (String c html), w1)) ->
    Forall (fun job_url => String.prefix "https" job_url = true) q ->
    q <> [] ->
    HTML_FILE_LIMIT cfg - num_html_saved d < Z.of_nat (length q) ->
    unfinished = length q ->
    exists q' u' d' p' w',
      download_loop cfg net q unfinished d p w = (q', S u', d', p', w').
Proof.
  induction q as [|job_url q IH]; intros unfinished d p w Hnet Hhttps Hne Hcap ->;
    [congruence|].
  cbn [download_loop]. inversion Hhttps as [|? ? Hhead Htail]; subst.
  rewrite Hhead. simpl negb. cbv iota.
  destruct (Hnet job_url w) as (c & html & w1 & Hfetch). rewrite Hfetch.
  destruct (Z.leb_spec (HTML_FILE_LIMIT cfg) (num_html_saved d)) as [Hfull|Hroom].
  - simpl length. eauto 6.
  - simpl length in *. apply IH; try assumption.
    + destruct q; [simpl in Hcap; lia | discriminate].
    + simpl num_html_saved. lia.
    + reflexivity.
Qed.

(** X24. When every page can be fetched and the queue holds more
    addresses than the cap leaves room for, [download_jobs] does not
    return: the item in hand when the limit is found reached is never
    marked done, so [download_queue.join()] waits for ever and
    [downloading_done] is not set. *)
Theorem download_jobs_blocks_at_cap (q : list string) (d : t) (p : ProgressTracker.t)
    (w : World) :
  (forall url w0, exists c html w1,
      Fetcher.fetch_page cfg net url w0 = (Some (String c html), w1)) ->
  Forall (fun job_url => String.prefix "https" job_url = true) q ->
  q <> [] ->
  HTML_FILE_LIMIT cfg - num_html_saved d < Z.of_nat (length q) ->
  download_jobs cfg net q d p w = None.
Proof.
  intros Hnet Hhttps Hne Hcap. unfold download_jobs.
  destruct q as [|u q]; [congruence|].
  destruct (download_loop_blocks (u :: q) (length (u :: q)) d p
              (logging INFO "Starting downloading process..." w) Hnet Hhttps Hne Hcap eq_refl)
    as (q' & u' & d' & p' & w' & Hrun).
  now rewrite Hrun.
Qed.

(** X25. The tracker counts what the downloader saves. When the tracker
    has the downloader's cap and its count, then after the loop, however
    it ends, the tracker's [downloaded] is again [num_html_saved], and
    the loop stops saving at the cap. *)
Theorem tracker_counts_saved_pages (q : list string) (unfinished : nat) (d : t)
    (p : ProgressTracker.t) (w : World) :
  ProgressTracker.html_file_limit p = HTML_FILE_LIMIT cfg ->
  ProgressTracker.downloaded p = num_html_saved d ->
  ProgressTracker.downloaded (snd (fst (download_loop cfg net q unfinished d p w))) =
    num_html_saved (snd (fst (fst (download_loop cfg net q unfinished d p w)))) /\
  num_html_saved (snd (fst (fst (download_loop cfg net q unfinished d p w)))) <=
    Z.max (num_html_saved d) (HTML_FILE_LIMIT cfg).
Proof.
  revert unfinished d p w.
  induction q as [|job_url q IH]; intros unfinished d p w Hlimit Hcount;
    cbn [download_loop].
  - simpl. lia.
  - destruct (negb (String.prefix "https" job_url)); [now apply IH|].
    destruct (Fetcher.fetch_page cfg net job_url w) as [[[|c html]|] w1];
      try (now apply IH).
    destruct (Z.leb_spec (HTML_FILE_LIMIT cfg) (num_html_saved d)) as [Hfull|Hroom].
    + simpl. lia.
    + match goal with |- context [download_loop _ _ q ?u0 ?d0 ?p0 ?w0] =>
        destruct (IH u0 d0 p0 w0) as [Hc Hn] end.
      * unfold ProgressTracker.update_download.
        destruct (ProgressTracker.downloaded p <? ProgressTracker.html_file_limit p);
          exact Hlimit.
      * unfold ProgressTracker.update_download.
        destruct (Z.ltb_spec (ProgressTracker.downloaded p)
                    (ProgressTracker.html_file_limit p)); simpl;
          [rewrite Hcount; reflexivity | lia].
      * split; [exact Hc|]. eapply Z.le_trans; [exact Hn|]. simpl. lia.
Qed.

Lemma fetch_page_requests_of url w :
  requests (snd (Fetcher.fetch_page cfg net url w)) = requests w \/
  requests (snd (Fetcher.fetch_page cfg net url w)) = requests w ++ [url].
Proof.
  unfold Fetcher.fetch_page.
  destruct (Z.to_nat (MAX_RETRIES cfg)) as [|fuel]; cbn [Fetcher.fetch_page_loop];
    destruct (0 <? MAX_RETRIES cfg); try (left; reflexivity).
  destruct (try_request_returns net url w) as (r & w1 & Htry & Hreq & _).
  rewrite Htry. right. exact Hreq.
Qed.

(** X26. The download loop requests nothing but queue items that start
    with https: every request made during the loop is such an item. *)
Theorem download_loop_requests_https (q : list string) (unfinished : nat) (d : t)
    (p : ProgressTracker.t) (w : World) (u : string) :
  u ∈ requests (snd (download_loop cfg net q unfinished d p w)) ->
  u ∈ requests w \/ (u ∈ q /\ String.prefix "https" u = true).
Proof.
  revert unfinished d p w.
  induction q as [|job_url q IH]; intros unfinished d p w Hu; cbn [download_loop] in Hu.
  - left. exact Hu.
  - assert (Hrec : forall u0 d0 p0 w0,
               u ∈ requests (snd (download_loop cfg net q u0 d0 p0 w0)) ->
               requests w0 = requests w ->
               u ∈ requests w \/ (u ∈ job_url :: q /\ String.prefix "https" u = true)).
    { intros u0 d0 p0 w0 H Hw. destruct (IH _ _ _ _ H) as [Hin|[Hin Hp]].
      - left. now rewrite <- Hw.
      - right. split; [apply elem_of_cons; now right | exact Hp]. }
    destruct (String.prefix "https" job_url) eqn:Hhttps; simpl negb in Hu; cbv iota in Hu;
      [|apply (Hrec _ _ _ _ Hu); reflexivity].
    pose proof (fetch_page_requests_of job_url w) as Hreq.
    destruct (Fetcher.fetch_page cfg net job_url w) as [r w1]. simpl in Hreq.
    assert (Hw1 : u ∈ requests w1 ->
                  u ∈ requests w \/ (u ∈ job_url :: q /\ String.prefix "https" u = true)).
    { intros Hin. destruct Hreq as [Hreq|Hreq]; rewrite Hreq in Hin; [now left|].
      apply elem_of_app in Hin as [Hin|Hin]; [now left|].
      apply elem_of_cons in Hin as [->|Hin]; [|inversion Hin].
      right. split; [apply elem_of_cons; now left | exact Hhttps]. }
    assert (Hrec1 : forall u0 d0 p0 w0,
               u ∈ requests (snd (download_loop cfg net q u0 d0 p0 w0)) ->
               requests w0 = requests w1 ->
               u ∈ requests w \/ (u ∈ job_url :: q /\ String.prefix "https" u = true)).
    { intros u0 d0 p0 w0 H Hw. destruct (IH _ _ _ _ H) as [Hin|[Hin Hp]].
      - apply Hw1. now rewrite <- Hw.
      - right. split; [apply elem_of_cons; now right | exact Hp]. }
    destruct r as [[|c html]|]; try (apply (Hrec1 _ _ _ _ Hu); reflexivity).
    destruct (HTML_FILE_LIMIT cfg <=? num_html_saved d).
    + apply Hw1. exact Hu.
    + apply (Hrec1 _ _ _ _ Hu). reflexivity.
Qed.

(** X27. With a cap of zero, or a negative one, nothing is ever put on
    the download queue, so [download_jobs] returns at its first check
    without setting [downloading_done], and [complete] after it polls
    for ever. *)
Theorem zero_cap_never_completes (f : Fetcher.t) (d : t) (p : ProgressTracker.t)
    (w : World) :
  Fetcher.reachable cfg f ->
  HTML_FILE_LIMIT cfg <= 0 ->
  ProgressTracker.downloading_done p = false ->
  exists w',
    download_jobs cfg net (Fetcher.download_queue f) d p w = Some ([], d, p, w') /\
    forall fuel elapsed, ProgressTracker.complete fuel elapsed p w' = None.
Proof.
  intros Hf Hcap Hdone.
  destruct (reachable_sound cfg f Hf) as (_ & _ & _ & Hempty).
  rewrite (Hempty Hcap).
  eexists. split; [reflexivity|].
  intros fuel elapsed. unfold ProgressTracker.complete.
  destruct (complete_wait_keeps_polling p 0 Hdone eq_refl fuel
              (logging WARNING "No jobs available for download." w)) as (w' & Hw' & _).
  now rewrite Hw'.
Qed.

End DownloaderRuns.

Lemma download_jobs_drains_short_queue_witness :
  let cfg := {| DATA_FOLDER := "data"; NUM_JOBS := 5; HTML_FILE_LIMIT := 2;
                MAX_RETRIES := 3; JOB_TITLES := ["Koch"] |} in
  let q := ["https://www.jobs.ch/en/vacancies/detail/a";
            "https://www.jobs.ch/en/vacancies/detail/b"] in
  let p := ProgressTracker.init 5 2 in
  q <> [] /\
  Downloader.num_html_saved Downloader.init + Z.of_nat (length q) <= HTML_FILE_LIMIT cfg /\
  exists d' p' w',
    Downloader.download_jobs cfg (steady_net "<html>ok</html>") q Downloader.init p
      fresh_world = Some ([], d', p', w') /\
    ProgressTracker.downloading_done p' = true.
Proof.
  intros cfg q p.
  assert (Hne : q <> []) by discriminate.
  assert (Hroom : Downloader.num_html_saved Downloader.init + Z.of_nat (length q) <=
                  HTML_FILE_LIMIT cfg) by (simpl; lia).
  split; [exact Hne|]. split; [exact Hroom|].
  destruct (download_jobs_drains_short_queue cfg (steady_net "<html>ok</html>") q
              Downloader.init p fresh_world Hne Hroom) as (d' & p' & w' & Hrun & Hdone & _).
  exists d', p', w'. split; [exact Hrun | exact Hdone].
Defined.

Lemma download_jobs_blocks_at_cap_witness :
  let cfg := {| DATA_FOLDER := "data"; NUM_JOBS := 5; HTML_FILE_LIMIT := 1;
                MAX_RETRIES := 3; JOB_TITLES := ["Koch"] |} in
  let q := ["https://www.jobs.ch/en/vacancies/detail/a";
            "https://www.jobs.ch/en/vacancies/detail/b"] in
  (forall url w0, exists c html w1,
      Fetcher.fetch_page cfg (steady_net "<html>ok</html>") url w0 =
        (Some (String c html), w1)) /\
  Forall (fun job_url => String.prefix "https" job_url = true) q /\
  q <> [] /\
  HTML_FILE_LIMIT cfg - Downloader.num_html_saved Downloader.init < Z.of_nat (length q) /\
  Downloader.download_jobs cfg (steady_net "<html>ok</html>") q Downloader.init
    (ProgressTracker.init 5 1) fresh_world = None.
Proof.
  intros cfg q.
  assert (Hnet : forall url w0, exists c html w1,
             Fetcher.fetch_page cfg (steady_net "<html>ok</html>") url w0 =
               (Some (String c html), w1)).
  { intros url w0. eexists _, _, _. reflexivity. }
  assert (Hhttps : Forall (fun job_url => String.prefix "https" job_url = true) q).
  { repeat constructor. }
  assert (Hne : q <> []) by discriminate.
  assert (Hcap : HTML_FILE_LIMIT cfg - Downloader.num_html_saved Downloader.init <
                 Z.of_nat (length q)) by reflexivity.
  split; [exact Hnet|]. split; [exact Hhttps|]. split; [exact Hne|]. split; [exact Hcap|].
  exact (download_jobs_blocks_at_cap cfg (steady_net "<html>ok</html>") q Downloader.init
           (ProgressTracker.init 5 1) fresh_world Hnet Hhttps Hne Hcap).
Defined.

Lemma tracker_counts_saved_pages_witness :
  let cfg := {| DATA_FOLDER := "data"; NUM_JOBS := 5; HTML_FILE_LIMIT := 2;
                MAX_RETRIES := 3; JOB_TITLES := ["Koch"] |} in
  let q := ["https://www.jobs.ch/en/vacancies/detail/a"; "ftp://elsewhere";
            "https://www.jobs.ch/en/vacancies/detail/b";
            "https://www.jobs.ch/en/vacancies/detail/c"] in
  let p := ProgressTracker.init 5 2 in
  let run := Downloader.download_loop cfg (steady_net "<html>ok</html>") q 4
               Downloader.init p fresh_world in
  ProgressTracker.html_file_limit p = HTML_FILE_LIMIT cfg /\
  ProgressTracker.downloaded p = Downloader.num_html_saved Downloader.init /\
  ProgressTracker.downloaded (snd (fst run)) = Downloader.num_html_saved (snd (fst (fst run))).
Proof.
  intros cfg q p run. split; [reflexivity|]. split; [reflexivity|].
  apply (tracker_counts_saved_pages cfg (steady_net "<html>ok</html>") q 4 Downloader.init
           p fresh_world eq_refl eq_refl).
Defined.

Lemma download_loop_requests_https_witness :
  let u := "https://www.jobs.ch/en/vacancies/detail/a" in
  let q := ["ftp://elsewhere"; u] in
  let run := Downloader.download_loop config (steady_net "<html>ok</html>") q 2
               Downloader.init (ProgressTracker.init 1000 90) fresh_world in
  u ∈ requests (snd run) /\
  (u ∈ requests fresh_world \/ (u ∈ q /\ String.prefix "https" u = true)).
Proof.
  intros u q run.
  assert (Hin : u ∈ requests (snd run)) by (vm_compute; constructor).
  split; [exact Hin|].
  exact (download_loop_requests_https config (steady_net "<html>ok</html>") q 2
           Downloader.init (ProgressTracker.init 1000 90) fresh_world u Hin).
Defined.

Lemma zero_cap_never_completes_witness :
  let cfg := {| DATA_FOLDER := "data"; NUM_JOBS := 5; HTML_FILE_LIMIT := 0;
                MAX_RETRIES := 3; JOB_TITLES := ["Koch"] |} in
  let p := ProgressTracker.init 5 0 in
  let f := fst (Fetcher.accept_link cfg "https://www.jobs.ch/en/vacancies/detail/a"
                  Fetcher.init p) in
  Fetcher.reachable cfg f /\
  HTML_FILE_LIMIT cfg <= 0 /\
  ProgressTracker.downloading_done p = false /\
  exists w',
    Downloader.download_jobs cfg (steady_net "<html>ok</html>") (Fetcher.download_queue f)
      Downloader.init p fresh_world = Some ([], Downloader.init, p, w') /\
    ProgressTracker.complete 1000 0 p w' = None.
Proof.
  intros cfg p f.
  assert (Hf : Fetcher.reachable cfg f).
  { exists 1%nat, p, (Fetcher.Enter 0 ["https://www.jobs.ch/en/vacancies/detail/a"] ::
                      repeat (Fetcher.Step 0) 6).
    eexists _, _. reflexivity. }
  assert (Hcap : HTML_FILE_LIMIT cfg <= 0) by (simpl; lia).
  split; [exact Hf|]. split; [exact Hcap|]. split; [reflexivity|].
  destruct (zero_cap_never_completes cfg (steady_net "<html>ok</html>") f Downloader.init p
              fresh_world Hf Hcap eq_refl) as (w' & Hrun & Hnever).
  exists w'. split; [exact Hrun | apply Hnever].
Defined.
